(** * pkg/cli/flags.go: typed flag builders, their processors and validators

    A shallow embedding of the flag-registration code of the instance
    selector's command line package.  The Go receiver [cl] is threaded
    explicitly: a builder maps a [CommandLineInterface] to the next one, and a
    processor or validator (a closure over [cl] in the source) maps the
    [Flags] table it is run against to its return value and the table it
    leaves behind. *)

From Stdlib Require Import ZArith Lia Bool.
From Stdlib Require Import Floats.SpecFloat.
From stdpp Require Import gmap strings.

Local Open Scope Z_scope.

(** ** Go values *)

(** [float64]: IEEE 754 binary64, as the specification floats of the
    Standard Library with 53 bits of precision and exponents below 1024. *)
Module Float64.
Definition prec : Z := 53.
Definition emax : Z := 1024.

(** The conversion [float64(n)] of an [int]: round to nearest even. *)
Definition of_int (n : Z) : spec_float := binary_normalize prec emax n 0 false.

(** [x / y]; a finite non-zero [x] over zero is an infinity, no panic. *)
Definition div (x y : spec_float) : spec_float := SFdiv prec emax x y.

(** [x > y]: false as soon as one side is a NaN.  [SFcompare] orders finite
    numbers by exponent, then mantissa, which is the order of the reals on the
    normalised representations that Go's values have. *)
Definition gt (x y : spec_float) : bool :=
  match SFcompare x y with
  | Some Gt => true
  | _ => false
  end.

Definition zero : spec_float := S754_zero false.
Definition two : spec_float := S754_finite false 4503599627370496 (-51).
Definition half : spec_float := S754_finite false 4503599627370496 (-53).
End Float64.

(** The constants of flags.go, for a 64-bit [uint]. *)
Definition uintSize : Z := 64.
Definition maxInt : Z := Z.shiftr (Z.ones uintSize) 1.
Definition max32Int : Z := Z.shiftr (Z.ones 32) 1.
Definition maxUint64 : Z := Z.ones 64.
Definition minInt : Z := - maxInt - 1.

(** Modelled from the spec: the type [bytequantity.ByteQuantity], whose
    package is not among the sources.  A byte quantity is a value object whose
    canonical representation is an integer count of mebibytes. *)
Record ByteQuantity : Type := { Quantity : Z }.

(** Modelled from the spec: the method [MiB] of [ByteQuantity], missing with
    its package: the canonical magnitude of the quantity, in mebibytes. *)
Definition MiB (bq : ByteQuantity) : Z := Quantity bq.

(** [*regexp.Regexp] of Go's library: the compiled object remembers the
    expression it was compiled from. *)
Record Regexp : Type := { expr : string }.

(** What an [interface{}] slot of the [Flags] table points to.  The pointers
    come from pflag or from the [...Me] helpers and are never nil, so a slot is
    modelled by its pointee. *)
Inductive Value : Type :=
| PBool (b : bool)
| PInt (n : Z)
| PInt32 (n : Z)
| PFloat64 (f : spec_float)
| PString (s : string)
| PStringSlice (l : list string)
| PByteQuantity (bq : ByteQuantity)
| PRegexp (re : Regexp).

(** [interface{}]: [None] is the nil interface. *)
Definition iface : Type := option Value.

(** [map[string]interface{}]; indexing a missing key yields nil. *)
Definition index (fl : gmap string iface) (k : string) : iface :=
  match fl !! k with
  | Some v => v
  | None => None
  end.

(** What a call of a [func(val interface{}) error] does: return nil, return
    an error built by [fmt.Errorf], or panic (a failed type assertion or an
    index out of range). *)
Inductive result : Type :=
| Nil
| Errorf (msg : string)
| Panic.

(** The types [validator] and [processor]: the closures read and write
    [cl.Flags] and nothing else of [cl]. *)
Definition validator : Type := iface -> gmap string iface -> result * gmap string iface.
Definition processor : Type := iface -> gmap string iface -> result * gmap string iface.

(** Modelled from the spec: the struct [CommandLineInterface], declared
    outside flags.go; the fields are those flags.go uses, with the types its
    uses give them.  The pflag sets ([Command], [suiteFlags]) only own the
    storage the [Flags] slots point to and are not represented. *)
Record CommandLineInterface : Type := {
  Flags : gmap string iface;
  nilDefaults : gmap string bool;
  rangeFlags : gmap string bool;
  validators : gmap string (option validator);
  processors : gmap string (option processor)
}.

Definition setFlag (name : string) (v : iface) (cl : CommandLineInterface) :=
  {| Flags := <[name := v]> (Flags cl); nilDefaults := nilDefaults cl;
     rangeFlags := rangeFlags cl; validators := validators cl;
     processors := processors cl |}.

Definition setNilDefault (name : string) (cl : CommandLineInterface) :=
  {| Flags := Flags cl; nilDefaults := <[name := true]> (nilDefaults cl);
     rangeFlags := rangeFlags cl; validators := validators cl;
     processors := processors cl |}.

Definition setRangeFlag (name : string) (cl : CommandLineInterface) :=
  {| Flags := Flags cl; nilDefaults := nilDefaults cl;
     rangeFlags := <[name := true]> (rangeFlags cl); validators := validators cl;
     processors := processors cl |}.

Definition setValidator (name : string) (v : option validator) (cl : CommandLineInterface) :=
  {| Flags := Flags cl; nilDefaults := nilDefaults cl;
     rangeFlags := rangeFlags cl; validators := <[name := v]> (validators cl);
     processors := processors cl |}.

Definition setProcessor (name : string) (p : option processor) (cl : CommandLineInterface) :=
  {| Flags := Flags cl; nilDefaults := nilDefaults cl;
     rangeFlags := rangeFlags cl; validators := validators cl;
     processors := <[name := p]> (processors cl) |}.

(** ** The library functions flags.go calls *)

Definition byte_of (c : Ascii.ascii) : Z := Z.of_N (Ascii.N_of_ascii c).

Definition isDigit (c : Ascii.ascii) : bool := (48 <=? byte_of c) && (byte_of c <=? 57).

(** The byte [':'], the separator of a ratio. *)
Definition colon : Ascii.ascii := Ascii.ascii_of_N 58.

Fixpoint skipDigits (s : string) : string :=
  match s with
  | String c r => if isDigit c then skipDigits r else s
  | EmptyString => EmptyString
  end.

(** [regexp.MatchString] at the pattern [^[0-9]+:[0-9]+$]: the whole text is
    one or more digits, a colon, one or more digits ([$] without the [m] flag
    is the end of the text). *)
Definition MatchString_ratio (s : string) : bool :=
  match s with
  | String c r =>
      isDigit c &&
      match skipDigits r with
      | String sep (String d r') =>
          Ascii.eqb sep colon && isDigit d &&
          match skipDigits r' with
          | EmptyString => true
          | String _ _ => false
          end
      | _ => false
      end
  | EmptyString => false
  end.

(** [strings.Split(s, sep)] for a separator of one byte. *)
Fixpoint Split (s : string) (sep : Ascii.ascii) : list string :=
  match s with
  | EmptyString => [EmptyString]
  | String c r =>
      if Ascii.eqb c sep then EmptyString :: Split r sep
      else match Split r sep with
           | h :: t => String c h :: t
           | [] => [String c EmptyString]
           end
  end.

(** The value of a run of decimal digits, [None] at the first other byte. *)
Fixpoint parseDigits (acc : Z) (s : string) : option Z :=
  match s with
  | EmptyString => Some acc
  | String c r => if isDigit c then parseDigits (10 * acc + (byte_of c - 48)) r else None
  end.

(** [strconv.Atoi]: an optional sign, then at least one digit and only
    digits; [None] stands for a syntax or a range error, which the caller
    does not tell apart. *)
Definition Atoi (s : string) : option Z :=
  let '(neg, body) :=
    match s with
    | String c r =>
        if byte_of c =? 43 then (false, r)
        else if byte_of c =? 45 then (true, r)
        else (false, s)
    | EmptyString => (false, s)
    end in
  match body with
  | EmptyString => None
  | String _ _ =>
      match parseDigits 0 body with
      | Some n =>
          let v := if neg then - n else n in
          if (minInt <=? v) && (v <=? maxInt) then Some v else None
      | None => None
      end
  end.

(** [strings.Join]. *)
Fixpoint Join (elems : list string) (sep : string) : string :=
  match elems with
  | [] => ""
  | [x] => x
  | x :: r => x +:+ sep +:+ Join r sep
  end.

(** ** The ratio grammar, as the spec words it

    [number] is the class [[0-9]+]: a non-empty run of decimal digits, with
    value [decimal]; a text is in [ratioGrammar] when it is a number, a colon,
    a number. *)
Fixpoint allDigits (s : string) : bool :=
  match s with
  | EmptyString => true
  | String c r => isDigit c && allDigits r
  end.

Definition number (s : string) : Prop := s ≠ "" ∧ allDigits s = true.

Fixpoint decimalFrom (acc : Z) (s : string) : Z :=
  match s with
  | EmptyString => acc
  | String c r => decimalFrom (10 * acc + (byte_of c - 48)) r
  end.

Definition decimal (s : string) : Z := decimalFrom 0 s.

Definition ratioGrammar (s : string) : Prop :=
  ∃ a b, number a ∧ number b ∧ s = a +:+ ":" +:+ b.

(** ** Case-insensitive equality of ASCII strings, as the spec words it

    Two strings of ASCII bytes are equal up to case when they are equal once
    the letters [A]-[Z] are replaced by [a]-[z]. *)
Definition lowerByte (c : Z) : Z := if (65 <=? c) && (c <=? 90) then c + 32 else c.

Fixpoint lowerBytes (s : string) : list Z :=
  match s with
  | EmptyString => []
  | String c r => lowerByte (byte_of c) :: lowerBytes r
  end.

Fixpoint isASCII (s : string) : bool :=
  match s with
  | EmptyString => true
  | String c r => (byte_of c <? 128) && isASCII r
  end.

(** ** Stand-ins for running the model

    Simple functions in the place of Go's library and of the byte-quantity
    package, to run the model on examples: a compiler that refuses exactly
    the expressions with an unclosed or unopened parenthesis, a home directory
    expansion that returns an absolute path as it is, a parser of plain
    mebibyte counts, and a rune loop that equates nothing. *)
Fixpoint parensBalanced (depth : nat) (s : string) : bool :=
  match s with
  | EmptyString => Nat.eqb depth 0
  | String c r =>
      if byte_of c =? 40 then parensBalanced (S depth) r
      else if byte_of c =? 41 then
        match depth with
        | O => false
        | S d => parensBalanced d r
        end
      else parensBalanced depth r
  end.

Definition sampleCompile (s : string) : option Regexp :=
  if parensBalanced 0 s then Some {| expr := s |} else None.

Definition sampleExpand (s : string) : option string := Some s.

Definition sampleParse (s : string) : option ByteQuantity :=
  match s with
  | EmptyString => None
  | String _ _ => if allDigits s then Some {| Quantity := decimal s |} else None
  end.

Definition sampleStringGiB (bq : ByteQuantity) : string := "0".

Definition sampleFoldRunes (s t : string) : bool := false.

(** A command line with nothing registered. *)
Definition noFlags : CommandLineInterface :=
  {| Flags := ∅; nilDefaults := ∅; rangeFlags := ∅; validators := ∅; processors := ∅ |}.

(** The bounds of a triplet [vcpus] after parsing [--vcpus-min=4 --vcpus-max=2]. *)
Definition vcpus_4_2 : gmap string iface :=
  <["vcpus-max" := Some (PInt 2)]> (<["vcpus-min" := Some (PInt 4)]> ∅).

(** The bounds of a triplet [memory] after processing [--memory-min=2048
    --memory-max=1024]. *)
Definition memory_2048_1024 : gmap string iface :=
  <["memory-max" := Some (PByteQuantity {| Quantity := 1024 |})]>
    (<["memory-min" := Some (PByteQuantity {| Quantity := 2048 |})]> ∅).

Section Flags.

Set Default Proof Using "Type".

(** Go's library and the byte-quantity package, whose code is elsewhere:
    [regexp.Compile] and [homedir.Expand] ([None] when they return an error),
    [bytequantity.ParseToByteQuantity] and the method [StringGiB], and the
    rune loop [strings.EqualFold] falls into at the first non-ASCII byte. *)
Variable regexp_Compile : string -> option Regexp.
Variable homedir_Expand : string -> option string.
Variable ParseToByteQuantity : string -> option ByteQuantity.
Variable StringGiB : ByteQuantity -> string.
Variable foldRunes : string -> string -> bool.

(** [strings.EqualFold]: the ASCII fast path byte by byte; at the first byte
    of either string that is not ASCII the remaining suffixes go to the
    Unicode loop. *)
Fixpoint EqualFold (s t : string) : bool :=
  match s, t with
  | String a s', String b t' =>
      let sr := byte_of a in
      let tr := byte_of b in
      if 128 <=? Z.lor sr tr then foldRunes s t
      else if tr =? sr then EqualFold s' t'
      else
        let '(sr, tr) := if tr <? sr then (tr, sr) else (sr, tr) in
        if (65 <=? sr) && (sr <=? 90) && (tr =? sr + 97 - 65) then EqualFold s' t'
        else false
  | EmptyString, EmptyString => true
  | _, _ => false
  end.

(** *** RatioFlag *)

Definition ratioValidator (name : string) : validator := fun val fl =>
  match val with
  | None => (Nil, fl)
  | Some (PString vcpuToMemRatioVal) =>
      if negb (MatchString_ratio vcpuToMemRatioVal) then
        (Errorf ("invalid input for --" +:+ name +:+ ". A valid example is 1:2"), fl)
      else
        match Split vcpuToMemRatioVal colon with
        | v0 :: v1 :: _ =>
            match Atoi v0, Atoi v1 with
            | Some vcpusRatioVal, Some memRatioVal =>
                (Nil, <[name := Some (PFloat64 (Float64.div (Float64.of_int memRatioVal)
                                                            (Float64.of_int vcpusRatioVal)))]> fl)
            | _, _ =>
                (Errorf ("invalid input for --" +:+ name +:+
                         ". Ratio values must be integers. A valid example is 1:2"), fl)
            end
        | _ => (Panic, fl)
        end
  | Some _ => (Panic, fl)
  end.

Definition RatioFlag (name : string) (shorthand : option string)
    (defaultValue : option string) (cl : CommandLineInterface) : CommandLineInterface :=
  let '(cl, defaultValue) :=
    match defaultValue with
    | None => (setNilDefault name cl, "")
    | Some d => (cl, d)
    end in
  let cl :=
    match shorthand with
    | Some _ => setFlag name (Some (PString defaultValue)) cl
    | None => setFlag name (Some (PString defaultValue)) cl
    end in
  setValidator name (Some (ratioValidator name)) cl.

(** *** The builders of one raw flag

    [flagSet.IntP(name, shorthand, d, description)] and its siblings hand
    back a pointer to fresh storage holding the default [d]; the flag set and
    the help text have no other part in this file. *)

Definition BoolFlagOnFlagSet (name : string) (shorthand : option string)
    (defaultValue : option bool) (cl : CommandLineInterface) : CommandLineInterface :=
  let '(cl, defaultValue) :=
    match defaultValue with
    | None => (setNilDefault name cl, false)
    | Some d => (cl, d)
    end in
  match shorthand with
  | Some _ => setFlag name (Some (PBool defaultValue)) cl
  | None => setFlag name (Some (PBool defaultValue)) cl
  end.

Definition IntFlagOnFlagSet (name : string) (shorthand : option string)
    (defaultValue : option Z) (cl : CommandLineInterface) : CommandLineInterface :=
  let '(cl, defaultValue) :=
    match defaultValue with
    | None => (setNilDefault name cl, 0)
    | Some d => (cl, d)
    end in
  match shorthand with
  | Some _ => setFlag name (Some (PInt defaultValue)) cl
  | None => setFlag name (Some (PInt defaultValue)) cl
  end.

Definition Int32FlagOnFlagSet (name : string) (shorthand : option string)
    (defaultValue : option Z) (cl : CommandLineInterface) : CommandLineInterface :=
  let '(cl, defaultValue) :=
    match defaultValue with
    | None => (setNilDefault name cl, 0)
    | Some d => (cl, d)
    end in
  match shorthand with
  | Some _ => setFlag name (Some (PInt32 defaultValue)) cl
  | None => setFlag name (Some (PInt32 defaultValue)) cl
  end.

Definition Float64FlagOnFlagSet (name : string) (shorthand : option string)
    (defaultValue : option spec_float) (cl : CommandLineInterface) : CommandLineInterface :=
  let '(cl, defaultValue) :=
    match defaultValue with
    | None => (setNilDefault name cl, Float64.zero)
    | Some d => (cl, d)
    end in
  match shorthand with
  | Some _ => setFlag name (Some (PFloat64 defaultValue)) cl
  | None => setFlag name (Some (PFloat64 defaultValue)) cl
  end.

Definition StringFlagOnFlagSet (name : string) (shorthand : option string)
    (defaultValue : option string) (processorFn : option processor)
    (validationFn : option validator) (cl : CommandLineInterface) : CommandLineInterface :=
  let '(cl, defaultValue) :=
    match defaultValue with
    | None => (setNilDefault name cl, "")
    | Some d => (cl, d)
    end in
  let cl :=
    match shorthand with
    | Some _ => setFlag name (Some (PString defaultValue)) cl
    | None => setFlag name (Some (PString defaultValue)) cl
    end in
  let cl := setProcessor name processorFn cl in
  setValidator name validationFn cl.

(** A nil slice is [None]; the caller's [[]string{}] is [Some []]. *)
Definition StringSliceFlagOnFlagSet (name : string) (shorthand : option string)
    (defaultValue : option (list string)) (cl : CommandLineInterface) : CommandLineInterface :=
  let '(cl, defaultValue) :=
    match defaultValue with
    | None => (setNilDefault name cl, [])
    | Some d => (cl, d)
    end in
  match shorthand with
  | Some _ => setFlag name (Some (PStringSlice defaultValue)) cl
  | None => setFlag name (Some (PStringSlice defaultValue)) cl
  end.

(** *** StringOptionsFlagOnFlagSet *)

(** The loop [for _, v := range validOpts] of the validator: the type
    assertion on [val] is evaluated at each element, so it panics only when
    there is an element to compare with. *)
Fixpoint optionsLoop (validOpts : list string) (val : Value) : option bool :=
  match validOpts with
  | [] => Some false
  | v :: rest =>
      match val with
      | PString s => if EqualFold v s then Some true else optionsLoop rest val
      | _ => None
      end
  end.

Definition stringOptionsValidator (name : string) (validOpts : list string) : validator :=
  fun val fl =>
  match val with
  | None => (Nil, fl)
  | Some v =>
      match optionsLoop validOpts v with
      | Some true => (Nil, fl)
      | Some false =>
          (Errorf ("error " +:+ name +:+ " must be one of: " +:+ Join validOpts ", "), fl)
      | None => (Panic, fl)
      end
  end.

Definition StringOptionsFlagOnFlagSet (name : string) (shorthand : option string)
    (defaultValue : option string) (validOpts : list string)
    (cl : CommandLineInterface) : CommandLineInterface :=
  StringFlagOnFlagSet name shorthand defaultValue None
    (Some (stringOptionsValidator name validOpts)) cl.

(** *** RegexFlagOnFlagSet *)

Definition regexInvalidInputMsg (name : string) : string :=
  "Invalid regex input for --" +:+ name +:+ ".".

Definition regexProcessor (name : string) : processor := fun val fl =>
  match val with
  | None => (Nil, fl)
  | Some (PString v) =>
      match regexp_Compile v with
      | None => (Errorf (regexInvalidInputMsg name +:+ " Unable to compile the regex"), fl)
      | Some regexVal => (Nil, <[name := Some (PRegexp regexVal)]> fl)
      end
  | Some (PRegexp _) => (Nil, fl)
  | Some _ => (Errorf (regexInvalidInputMsg name +:+ " Input type is unsupported"), fl)
  end.

Definition regexValidator (name : string) : validator := fun val fl =>
  match val with
  | None => (Nil, fl)
  | Some (PRegexp _) => (Nil, fl)
  | Some _ => (Errorf (regexInvalidInputMsg name +:+ " Processing failed"), fl)
  end.

Definition RegexFlagOnFlagSet (name : string) (shorthand : option string)
    (defaultValue : option string) (cl : CommandLineInterface) : CommandLineInterface :=
  StringFlagOnFlagSet name shorthand defaultValue
    (Some (regexProcessor name)) (Some (regexValidator name)) cl.

(** *** PathFlagOnFlagSet *)

Definition pathInvalidInputMsg (name : string) : string :=
  "Invalid path input for --" +:+ name +:+ ". ".

Definition pathProcessor (name : string) : processor := fun val fl =>
  match val with
  | None => (Nil, fl)
  | Some (PString v) =>
      match homedir_Expand v with
      | None => (Errorf (pathInvalidInputMsg name +:+ " Unable to expand path"), fl)
      | Some path => (Nil, <[name := Some (PString path)]> fl)
      end
  | Some _ => (Errorf (pathInvalidInputMsg name +:+ " Input type is unsupported"), fl)
  end.

Definition PathFlagOnFlagSet (name : string) (shorthand : option string)
    (defaultValue : option string) (cl : CommandLineInterface) : CommandLineInterface :=
  StringFlagOnFlagSet name shorthand defaultValue (Some (pathProcessor name)) None cl.

(** *** ByteQuantityFlagOnFlagSet *)

Definition byteQuantityInvalidInputMsg (name : string) : string :=
  "Invalid input for --" +:+ name +:+ ". A valid example is 16gb.".

Definition byteQuantityProcessor (name : string) : processor := fun val fl =>
  match val with
  | None => (Nil, fl)
  | Some (PString byteQuantityInput) =>
      match ParseToByteQuantity byteQuantityInput with
      | None =>
          (Errorf (byteQuantityInvalidInputMsg name +:+ " Can't parse byte quantity " +:+
                   byteQuantityInput), fl)
      | Some bq => (Nil, <[name := Some (PByteQuantity bq)]> fl)
      end
  | Some (PByteQuantity _) => (Nil, fl)
  | Some _ => (Errorf (byteQuantityInvalidInputMsg name +:+ " Input type is unsupported"), fl)
  end.

Definition byteQuantityValidator (name : string) : validator := fun val fl =>
  match val with
  | None => (Nil, fl)
  | Some (PByteQuantity _) => (Nil, fl)
  | Some _ => (Errorf (byteQuantityInvalidInputMsg name +:+ " Processing failed"), fl)
  end.

Definition ByteQuantityFlagOnFlagSet (name : string) (shorthand : option string)
    (defaultValue : option ByteQuantity) (cl : CommandLineInterface) : CommandLineInterface :=
  let stringDefaultValue :=
    match defaultValue with
    | Some d => Some (StringGiB d)
    | None => None
    end in
  StringFlagOnFlagSet name shorthand stringDefaultValue
    (Some (byteQuantityProcessor name)) (Some (byteQuantityValidator name)) cl.

(** *** The range triplets *)

Definition rangeErrorMsg (minArg maxArg : string) : string :=
  "Invalid input for --" +:+ minArg +:+ " and --" +:+ maxArg +:+ ". " +:+
  minArg +:+ " must be less than or equal to " +:+ maxArg.

Definition intRangeValidator (name : string) : validator := fun _ fl =>
  match index fl (name +:+ "-min"), index fl (name +:+ "-max") with
  | None, _ | _, None => (Nil, fl)
  | Some minP, Some maxP =>
      let minArg := name +:+ "-min" in
      let maxArg := name +:+ "-max" in
      match minP, maxP with
      | PInt minVal, PInt maxVal =>
          if minVal >? maxVal then (Errorf (rangeErrorMsg minArg maxArg), fl)
          else (Nil, fl)
      | _, _ => (Panic, fl)
      end
  end.

Definition IntMinMaxRangeFlagOnFlagSet (name : string) (shorthand : option string)
    (defaultValue : option Z) (cl : CommandLineInterface) : CommandLineInterface :=
  let cl := IntFlagOnFlagSet name shorthand defaultValue cl in
  let cl := IntFlagOnFlagSet (name +:+ "-min") None None cl in
  let cl := IntFlagOnFlagSet (name +:+ "-max") None None cl in
  let cl := setValidator name (Some (intRangeValidator name)) cl in
  setRangeFlag name cl.

Definition int32RangeValidator (name : string) : validator := fun _ fl =>
  match index fl (name +:+ "-min"), index fl (name +:+ "-max") with
  | None, _ | _, None => (Nil, fl)
  | Some minP, Some maxP =>
      let minArg := name +:+ "-min" in
      let maxArg := name +:+ "-max" in
      match minP, maxP with
      | PInt32 minVal, PInt32 maxVal =>
          if minVal >? maxVal then (Errorf (rangeErrorMsg minArg maxArg), fl)
          else (Nil, fl)
      | _, _ => (Panic, fl)
      end
  end.

Definition Int32MinMaxRangeFlagOnFlagSet (name : string) (shorthand : option string)
    (defaultValue : option Z) (cl : CommandLineInterface) : CommandLineInterface :=
  let cl := Int32FlagOnFlagSet name shorthand defaultValue cl in
  let cl := Int32FlagOnFlagSet (name +:+ "-min") None None cl in
  let cl := Int32FlagOnFlagSet (name +:+ "-max") None None cl in
  let cl := setValidator name (Some (int32RangeValidator name)) cl in
  setRangeFlag name cl.

Definition float64RangeValidator (name : string) : validator := fun _ fl =>
  match index fl (name +:+ "-min"), index fl (name +:+ "-max") with
  | None, _ | _, None => (Nil, fl)
  | Some minP, Some maxP =>
      let minArg := name +:+ "-min" in
      let maxArg := name +:+ "-max" in
      match minP, maxP with
      | PFloat64 minVal, PFloat64 maxVal =>
          if Float64.gt minVal maxVal then (Errorf (rangeErrorMsg minArg maxArg), fl)
          else (Nil, fl)
      | _, _ => (Panic, fl)
      end
  end.

Definition Float64MinMaxRangeFlagOnFlagSet (name : string) (shorthand : option string)
    (defaultValue : option spec_float) (cl : CommandLineInterface) : CommandLineInterface :=
  let cl := Float64FlagOnFlagSet name shorthand defaultValue cl in
  let cl := Float64FlagOnFlagSet (name +:+ "-min") None None cl in
  let cl := Float64FlagOnFlagSet (name +:+ "-max") None None cl in
  let cl := setValidator name (Some (float64RangeValidator name)) cl in
  setRangeFlag name cl.

Definition byteQuantityRangeValidator (name : string) : validator := fun _ fl =>
  match index fl (name +:+ "-min"), index fl (name +:+ "-max") with
  | None, _ | _, None => (Nil, fl)
  | Some minP, Some maxP =>
      let minArg := name +:+ "-min" in
      let maxArg := name +:+ "-max" in
      match minP, maxP with
      | PByteQuantity minBq, PByteQuantity maxBq =>
          let minVal := MiB minBq in
          let maxVal := MiB maxBq in
          if minVal >? maxVal then (Errorf (rangeErrorMsg minArg maxArg), fl)
          else (Nil, fl)
      | _, _ => (Panic, fl)
      end
  end.

Definition ByteQuantityMinMaxRangeFlagOnFlagSet (name : string) (shorthand : option string)
    (defaultValue : option ByteQuantity) (cl : CommandLineInterface) : CommandLineInterface :=
  let cl := ByteQuantityFlagOnFlagSet name shorthand defaultValue cl in
  let cl := ByteQuantityFlagOnFlagSet (name +:+ "-min") None None cl in
  let cl := ByteQuantityFlagOnFlagSet (name +:+ "-max") None None cl in
  let cl := setValidator name (Some (byteQuantityRangeValidator name)) cl in
  setRangeFlag name cl.

(** *** Every way to register

    The exported methods ([IntFlag], [ConfigIntFlag], [SuiteBoolFlag], ...)
    only choose the flag set and call one of the builders above; a
    [Registration] is one such call with its arguments. *)
Inductive Registration : Type :=
| RBool (name : string) (shorthand : option string) (d : option bool)
| RInt (name : string) (shorthand : option string) (d : option Z)
| RInt32 (name : string) (shorthand : option string) (d : option Z)
| RFloat64 (name : string) (shorthand : option string) (d : option spec_float)
| RString (name : string) (shorthand : option string) (d : option string)
    (processorFn : option processor) (validationFn : option validator)
| RStringSlice (name : string) (shorthand : option string) (d : option (list string))
| RRatio (name : string) (shorthand : option string) (d : option string)
| RByteQuantity (name : string) (shorthand : option string) (d : option ByteQuantity)
| RRegex (name : string) (shorthand : option string) (d : option string)
| RPath (name : string) (shorthand : option string) (d : option string)
| RStringOptions (name : string) (shorthand : option string) (d : option string)
    (validOpts : list string)
| RIntRange (name : string) (shorthand : option string) (d : option Z)
| RInt32Range (name : string) (shorthand : option string) (d : option Z)
| RFloat64Range (name : string) (shorthand : option string) (d : option spec_float)
| RByteQuantityRange (name : string) (shorthand : option string) (d : option ByteQuantity).

Definition register (r : Registration) (cl : CommandLineInterface) : CommandLineInterface :=
  match r with
  | RBool name sh d => BoolFlagOnFlagSet name sh d cl
  | RInt name sh d => IntFlagOnFlagSet name sh d cl
  | RInt32 name sh d => Int32FlagOnFlagSet name sh d cl
  | RFloat64 name sh d => Float64FlagOnFlagSet name sh d cl
  | RString name sh d p v => StringFlagOnFlagSet name sh d p v cl
  | RStringSlice name sh d => StringSliceFlagOnFlagSet name sh d cl
  | RRatio name sh d => RatioFlag name sh d cl
  | RByteQuantity name sh d => ByteQuantityFlagOnFlagSet name sh d cl
  | RRegex name sh d => RegexFlagOnFlagSet name sh d cl
  | RPath name sh d => PathFlagOnFlagSet name sh d cl
  | RStringOptions name sh d opts => StringOptionsFlagOnFlagSet name sh d opts cl
  | RIntRange name sh d => IntMinMaxRangeFlagOnFlagSet name sh d cl
  | RInt32Range name sh d => Int32MinMaxRangeFlagOnFlagSet name sh d cl
  | RFloat64Range name sh d => Float64MinMaxRangeFlagOnFlagSet name sh d cl
  | RByteQuantityRange name sh d => ByteQuantityMinMaxRangeFlagOnFlagSet name sh d cl
  end.

(** The validator the caller hands to [StringFlag], [ConfigStringFlag] or
    [SuiteStringFlag]; every other validator is built in flags.go. *)
Definition callerValidator (r : Registration) : option validator :=
  match r with
  | RString _ _ _ _ v => v
  | _ => None
  end.


(** *** Registrations as data *)

Definition isNone {A : Type} (o : option A) : bool :=
  match o with
  | None => true
  | Some _ => false
  end.

(** The name a registration is called with. *)
Definition baseName (r : Registration) : string :=
  match r with
  | RBool name _ _ | RInt name _ _ | RInt32 name _ _ | RFloat64 name _ _
  | RString name _ _ _ _ | RStringSlice name _ _ | RRatio name _ _
  | RByteQuantity name _ _ | RRegex name _ _ | RPath name _ _
  | RStringOptions name _ _ _ | RIntRange name _ _ | RInt32Range name _ _
  | RFloat64Range name _ _ | RByteQuantityRange name _ _ => name
  end.

Definition isTriplet (r : Registration) : bool :=
  match r with
  | RIntRange _ _ _ | RInt32Range _ _ _ | RFloat64Range _ _ _
  | RByteQuantityRange _ _ _ => true
  | _ => false
  end.

(** The flag names a registration creates. *)
Definition names (r : Registration) : list string :=
  if isTriplet r
  then [baseName r; baseName r +:+ "-min"; baseName r +:+ "-max"]
  else [baseName r].

(** Whether the caller passes a nil default. *)
Definition defaultIsNil (r : Registration) : bool :=
  match r with
  | RBool _ _ d => isNone d
  | RInt _ _ d | RInt32 _ _ d | RIntRange _ _ d | RInt32Range _ _ d => isNone d
  | RFloat64 _ _ d | RFloat64Range _ _ d => isNone d
  | RString _ _ d _ _ | RRatio _ _ d | RRegex _ _ d | RPath _ _ d
  | RStringOptions _ _ d _ => isNone d
  | RStringSlice _ _ d => isNone d
  | RByteQuantity _ _ d | RByteQuantityRange _ _ d => isNone d
  end.

(** The processor a caller hands to [StringFlagOnFlagSet]; the exported
    wrappers of flags.go always pass nil. *)
Definition callerProcessor (r : Registration) : option processor :=
  match r with
  | RString _ _ _ p _ => p
  | _ => None
  end.

(** The names a registration records as registered without default: its own
    when the caller passes nil, and always the two bounds of a triplet. *)
Definition unsetNames (r : Registration) : list string :=
  (if defaultIsNil r then [baseName r] else []) ++
  (if isTriplet r then [baseName r +:+ "-min"; baseName r +:+ "-max"] else []).

(** A program's registrations, in the order of the calls. *)
Fixpoint registerAll (rs : list Registration) (cl : CommandLineInterface)
    : CommandLineInterface :=
  match rs with
  | [] => cl
  | r :: rest => registerAll rest (register r cl)
  end.

(** The tables of [top] laid over those of [cl]. *)
Definition overlay (top cl : CommandLineInterface) : CommandLineInterface :=
  {| Flags := Flags top ∪ Flags cl;
     nilDefaults := nilDefaults top ∪ nilDefaults cl;
     rangeFlags := rangeFlags top ∪ rangeFlags cl;
     validators := validators top ∪ validators cl;
     processors := processors top ∪ processors cl |}.

(** A processor or validator that leaves every slot but [k] as it was. *)
Definition writes_only (k : string) (p : processor) : Prop :=
  ∀ (val : iface) (fl : gmap string iface) (k' : string),
    k' ≠ k → index (snd (p val fl)) k' = index fl k'.

(** A float that is no negative number: its sign bit is clear, or it is a
    NaN. *)
Definition nonNegative (f : spec_float) : Prop :=
  match f with
  | S754_zero sgn | S754_infinity sgn | S754_finite sgn _ _ => sgn = false
  | S754_nan => True
  end.

(** The bytes a ratio may be made of: digits and the colon. *)
Fixpoint ratioBytes (s : string) : bool :=
  match s with
  | EmptyString => true
  | String c r => (isDigit c || Ascii.eqb c colon) && ratioBytes r
  end.

(** *** The shapes of the statements *)

(** What the four ordering validators have in common, for the pointee
    constructor [inj] of the kind and its comparison [gt]: the table is only
    read; an error is returned exactly when both bounds are present, of the
    kind, and out of order, and it is the message with both flag names; a nil
    bound ends the call with nil. *)
Definition orders_by {T : Type} (v : validator) (name : string)
    (inj : T → Value) (gt : T → T → bool) : Prop :=
  ∀ (val : iface) (fl : gmap string iface),
    snd (v val fl) = fl ∧
    ((∃ msg, fst (v val fl) = Errorf msg) ↔
     (∃ a b, index fl (name +:+ "-min") = Some (inj a) ∧
             index fl (name +:+ "-max") = Some (inj b) ∧ gt a b = true)) ∧
    (∀ msg, fst (v val fl) = Errorf msg →
       msg = "Invalid input for --" +:+ (name +:+ "-min") +:+ " and --" +:+
             (name +:+ "-max") +:+ ". " +:+ (name +:+ "-min") +:+
             " must be less than or equal to " +:+ (name +:+ "-max")) ∧
    (index fl (name +:+ "-min") = None ∨ index fl (name +:+ "-max") = None →
       fst (v val fl) = Nil).

(** A flag of one raw kind registered under [name] by [build]: the name is
    recorded in [nilDefaults], with the sentinel [zero] as the default, when
    the caller passes no default; a default [d] is installed as [inj d] and
    leaves [nilDefaults] alone; so a name that was not recorded before tells the
    two registrations apart, whatever [d]. *)
Definition tracks_unset {D : Type} (build : option D → CommandLineInterface → CommandLineInterface)
    (name : string) (zero : Value) (inj : D → Value) : Prop :=
  ∀ cl : CommandLineInterface,
    (nilDefaults (build None cl) !! name = Some true ∧
     index (Flags (build None cl)) name = Some zero) ∧
    (∀ d, nilDefaults (build (Some d) cl) = nilDefaults cl ∧
          index (Flags (build (Some d) cl)) name = Some (inj d)) ∧
    (∀ d, nilDefaults cl !! name ≠ Some true →
          nilDefaults (build None cl) !! name ≠ nilDefaults (build (Some d) cl) !! name).

(** A triplet registered under the base [name] by [build]: whatever the
    default [d] of the base flag, the two bounds are recorded in [nilDefaults]
    and hold the sentinel [zero]; [rangeFlags] gains the base name and nothing
    else; the base name carries the validator [ordering]; the bounds carry
    what their own builder gives them ([bound cl k], for the table before the
    call and the bound's name), and no other name's validator changes. *)
Definition registers_triplet {D : Type}
    (build : option D → CommandLineInterface → CommandLineInterface)
    (name : string) (zero : Value) (ordering : validator)
    (bound : CommandLineInterface → string → option (option validator)) : Prop :=
  ∀ (d : option D) (cl : CommandLineInterface),
    nilDefaults (build d cl) !! (name +:+ "-min") = Some true ∧
    nilDefaults (build d cl) !! (name +:+ "-max") = Some true ∧
    index (Flags (build d cl)) (name +:+ "-min") = Some zero ∧
    index (Flags (build d cl)) (name +:+ "-max") = Some zero ∧
    rangeFlags (build d cl) = <[name := true]> (rangeFlags cl) ∧
    validators (build d cl) !! name = Some (Some ordering) ∧
    validators (build d cl) !! (name +:+ "-min") = bound cl (name +:+ "-min") ∧
    validators (build d cl) !! (name +:+ "-max") = bound cl (name +:+ "-max") ∧
    (∀ k, k ≠ name → k ≠ name +:+ "-min" → k ≠ name +:+ "-max" →
          validators (build d cl) !! k = validators cl !! k).

(** A validator that only reads the table. *)
Definition read_only (v : validator) : Prop :=
  ∀ (val : iface) (fl : gmap string iface), snd (v val fl) = fl.

(** A validator that writes at most the slot [k], with a float, and only on
    the way to returning nil for a non-nil value. *)
Definition writes_own_on_success (k : string) (v : validator) : Prop :=
  ∀ (val : iface) (fl : gmap string iface),
    snd (v val fl) = fl ∨
    (val ≠ None ∧ fst (v val fl) = Nil ∧
     ∃ f, snd (v val fl) = <[k := Some (PFloat64 f)]> fl).

(** ** Properties *)

(** Drops from a proof the library functions its statement does not mention. *)
Ltac tidy :=
  try clear regexp_Compile; try clear homedir_Expand; try clear ParseToByteQuantity;
  try clear StringGiB; try clear foldRunes.

(** *** Names of a triplet *)

Lemma append_ne (name suf : string) : suf ≠ "" → name +:+ suf ≠ name.
Proof.
  intros Hsuf. induction name as [|c name IH]; simpl.
  - exact Hsuf.
  - intros Heq. injection Heq as Heq. exact (IH Heq).
Qed.

Lemma append_inj (name s t : string) : name +:+ s = name +:+ t → s = t.
Proof.
  induction name as [|c name IH]; simpl; intros Heq.
  - exact Heq.
  - injection Heq as Heq. exact (IH Heq).
Qed.

Lemma min_ne_base (name : string) : name +:+ "-min" ≠ name.
Proof. apply append_ne. discriminate. Qed.

Lemma max_ne_base (name : string) : name +:+ "-max" ≠ name.
Proof. apply append_ne. discriminate. Qed.

Lemma min_ne_max (name : string) : name +:+ "-min" ≠ name +:+ "-max".
Proof. intros Heq. apply append_inj in Heq. discriminate. Qed.

Lemma index_insert_eq (fl : gmap string iface) (k : string) (v : iface) :
  index (<[k := v]> fl) k = v.
Proof. unfold index. rewrite lookup_insert_eq. reflexivity. Qed.

Lemma index_insert_ne (fl : gmap string iface) (k k' : string) (v : iface) :
  k ≠ k' → index (<[k := v]> fl) k' = index fl k'.
Proof. intros Hne. unfold index. rewrite lookup_insert_ne by exact Hne. reflexivity. Qed.

(** *** The ordering validators *)

Ltac range_cases fl name :=
  destruct (index fl (name +:+ "-min")) as [[]|] eqn:Hmin;
  destruct (index fl (name +:+ "-max")) as [[]|] eqn:Hmax;
  simpl.

Ltac orders_by_tac v :=
  let name := fresh "name" in
  let val := fresh "val" in
  let fl := fresh "fl" in
  intros name val fl; unfold v;
  range_cases fl name;
  repeat match goal with
         | |- context [if ?c then _ else _] => destruct c eqn:?
         end;
  simpl;
  (split; [reflexivity|]);
  (split; [split;
     [ intros [msg Hmsg]; try discriminate Hmsg; eauto
     | intros (? & ? & Ha & Hb & Hgt); try discriminate Ha; try discriminate Hb;
       try (injection Ha as ->; injection Hb as ->; simpl in *; congruence);
       eauto ]|]);
  (split; [intros msg Hmsg; try discriminate Hmsg; injection Hmsg as <-; reflexivity|]);
  intros [H|H]; try discriminate H; reflexivity.

Lemma intRangeValidator_orders (name : string) :
  orders_by (intRangeValidator name) name PInt Z.gtb.
Proof. revert name. orders_by_tac intRangeValidator. Qed.

Lemma int32RangeValidator_orders (name : string) :
  orders_by (int32RangeValidator name) name PInt32 Z.gtb.
Proof. revert name. orders_by_tac int32RangeValidator. Qed.

Lemma float64RangeValidator_orders (name : string) :
  orders_by (float64RangeValidator name) name PFloat64 Float64.gt.
Proof. revert name. orders_by_tac float64RangeValidator. Qed.

Lemma byteQuantityRangeValidator_orders (name : string) :
  orders_by (byteQuantityRangeValidator name) name PByteQuantity
            (fun a b => MiB a >? MiB b).
Proof. revert name. orders_by_tac byteQuantityRangeValidator. Qed.

(** *** What a registration leaves in the tables *)

Ltac unfold_builders :=
  unfold ByteQuantityMinMaxRangeFlagOnFlagSet, Float64MinMaxRangeFlagOnFlagSet,
    Int32MinMaxRangeFlagOnFlagSet, IntMinMaxRangeFlagOnFlagSet,
    ByteQuantityFlagOnFlagSet, PathFlagOnFlagSet, RegexFlagOnFlagSet,
    StringOptionsFlagOnFlagSet, StringSliceFlagOnFlagSet, StringFlagOnFlagSet,
    Float64FlagOnFlagSet, Int32FlagOnFlagSet, IntFlagOnFlagSet, BoolFlagOnFlagSet,
    RatioFlag, setRangeFlag, setValidator, setProcessor, setFlag, setNilDefault;
  simpl.

Ltac tracks_unset_tac :=
  intros cl; unfold_builders;
  repeat match goal with
         | sh : option string |- _ => destruct sh
         end;
  simpl;
  (split; [split; rewrite ?lookup_insert_eq, ?index_insert_eq; reflexivity|]);
  (split; [intros d; split; rewrite ?index_insert_eq; reflexivity|]);
  intros d Hfresh Heq; apply Hfresh; rewrite <- Heq;
  rewrite ?lookup_insert_eq; reflexivity.

(** C4: each of the eleven typed builders, called with a nil default, records
    the name in [nilDefaults] and installs the zero value of the raw flag's
    type (false, 0, 0.0, the empty string, the empty list); called with a
    default it installs that default and does not touch [nilDefaults]; hence
    a flag registered without default is told apart, by [nilDefaults], from
    one registered with the zero value. *)
Theorem nil_default_recorded (name : string) (shorthand : option string) :
  tracks_unset (BoolFlagOnFlagSet name shorthand) name (PBool false) PBool ∧
  tracks_unset (IntFlagOnFlagSet name shorthand) name (PInt 0) PInt ∧
  tracks_unset (Int32FlagOnFlagSet name shorthand) name (PInt32 0) PInt32 ∧
  tracks_unset (Float64FlagOnFlagSet name shorthand) name (PFloat64 (S754_zero false)) PFloat64 ∧
  (∀ p v, tracks_unset (fun d => StringFlagOnFlagSet name shorthand d p v) name
            (PString "") PString) ∧
  tracks_unset (StringSliceFlagOnFlagSet name shorthand) name (PStringSlice []) PStringSlice ∧
  tracks_unset (RatioFlag name shorthand) name (PString "") PString ∧
  tracks_unset (ByteQuantityFlagOnFlagSet name shorthand) name (PString "")
    (fun d => PString (StringGiB d)) ∧
  tracks_unset (RegexFlagOnFlagSet name shorthand) name (PString "") PString ∧
  tracks_unset (PathFlagOnFlagSet name shorthand) name (PString "") PString ∧
  (∀ validOpts, tracks_unset (fun d => StringOptionsFlagOnFlagSet name shorthand d validOpts)
                  name (PString "") PString).
Proof.
  repeat split_and;
    lazymatch goal with
    | |- tracks_unset _ _ _ _ => idtac
    | |- _ => intros
    end; tracks_unset_tac.
Qed.

Lemma IntFlagOnFlagSet_eq name shorthand d cl :
  IntFlagOnFlagSet name shorthand d cl =
  {| Flags := <[name := Some (PInt (default 0 d))]> (Flags cl);
     nilDefaults := match d with
                    | Some _ => nilDefaults cl
                    | None => <[name := true]> (nilDefaults cl)
                    end;
     rangeFlags := rangeFlags cl; validators := validators cl;
     processors := processors cl |}.
Proof. destruct d, shorthand; reflexivity. Qed.

Lemma Int32FlagOnFlagSet_eq name shorthand d cl :
  Int32FlagOnFlagSet name shorthand d cl =
  {| Flags := <[name := Some (PInt32 (default 0 d))]> (Flags cl);
     nilDefaults := match d with
                    | Some _ => nilDefaults cl
                    | None => <[name := true]> (nilDefaults cl)
                    end;
     rangeFlags := rangeFlags cl; validators := validators cl;
     processors := processors cl |}.
Proof. destruct d, shorthand; reflexivity. Qed.

Lemma Float64FlagOnFlagSet_eq name shorthand d cl :
  Float64FlagOnFlagSet name shorthand d cl =
  {| Flags := <[name := Some (PFloat64 (default Float64.zero d))]> (Flags cl);
     nilDefaults := match d with
                    | Some _ => nilDefaults cl
                    | None => <[name := true]> (nilDefaults cl)
                    end;
     rangeFlags := rangeFlags cl; validators := validators cl;
     processors := processors cl |}.
Proof. destruct d, shorthand; reflexivity. Qed.

Lemma StringFlagOnFlagSet_eq name shorthand d p v cl :
  StringFlagOnFlagSet name shorthand d p v cl =
  {| Flags := <[name := Some (PString (default "" d))]> (Flags cl);
     nilDefaults := match d with
                    | Some _ => nilDefaults cl
                    | None => <[name := true]> (nilDefaults cl)
                    end;
     rangeFlags := rangeFlags cl; validators := <[name := v]> (validators cl);
     processors := <[name := p]> (processors cl) |}.
Proof. destruct d, shorthand; reflexivity. Qed.

Lemma BoolFlagOnFlagSet_eq name shorthand d cl :
  BoolFlagOnFlagSet name shorthand d cl =
  {| Flags := <[name := Some (PBool (default false d))]> (Flags cl);
     nilDefaults := match d with
                    | Some _ => nilDefaults cl
                    | None => <[name := true]> (nilDefaults cl)
                    end;
     rangeFlags := rangeFlags cl; validators := validators cl;
     processors := processors cl |}.
Proof. destruct d, shorthand; reflexivity. Qed.

Lemma StringSliceFlagOnFlagSet_eq name shorthand d cl :
  StringSliceFlagOnFlagSet name shorthand d cl =
  {| Flags := <[name := Some (PStringSlice (default [] d))]> (Flags cl);
     nilDefaults := match d with
                    | Some _ => nilDefaults cl
                    | None => <[name := true]> (nilDefaults cl)
                    end;
     rangeFlags := rangeFlags cl; validators := validators cl;
     processors := processors cl |}.
Proof. destruct d, shorthand; reflexivity. Qed.

Lemma RatioFlag_eq name shorthand d cl :
  RatioFlag name shorthand d cl =
  {| Flags := <[name := Some (PString (default "" d))]> (Flags cl);
     nilDefaults := match d with
                    | Some _ => nilDefaults cl
                    | None => <[name := true]> (nilDefaults cl)
                    end;
     rangeFlags := rangeFlags cl;
     validators := <[name := Some (ratioValidator name)]> (validators cl);
     processors := processors cl |}.
Proof. destruct d, shorthand; reflexivity. Qed.

Ltac builders_eq :=
  unfold ByteQuantityMinMaxRangeFlagOnFlagSet, Float64MinMaxRangeFlagOnFlagSet,
    Int32MinMaxRangeFlagOnFlagSet, IntMinMaxRangeFlagOnFlagSet,
    ByteQuantityFlagOnFlagSet, PathFlagOnFlagSet, RegexFlagOnFlagSet,
    StringOptionsFlagOnFlagSet;
  rewrite ?IntFlagOnFlagSet_eq, ?Int32FlagOnFlagSet_eq, ?Float64FlagOnFlagSet_eq,
    ?StringFlagOnFlagSet_eq, ?BoolFlagOnFlagSet_eq, ?StringSliceFlagOnFlagSet_eq,
    ?RatioFlag_eq;
  unfold setRangeFlag, setValidator;
  cbn [Flags nilDefaults rangeFlags validators processors default].

(** Rewrites a lookup through a chain of inserts at the names of a triplet. *)
Ltac lookup_chain :=
  repeat first
    [ rewrite lookup_insert_eq
    | rewrite lookup_insert_ne by (first [assumption | apply not_eq_sym; assumption]) ].

Ltac triplet_tac name :=
  let d := fresh "d" in
  let cl := fresh "cl" in
  intros d cl; builders_eq;
  pose proof (min_ne_base name); pose proof (max_ne_base name);
  pose proof (min_ne_max name);
  unfold index; repeat split_and; try (intros k ? ? ?); lookup_chain; reflexivity.

Lemma int_triplet (name : string) (shorthand : option string) :
  registers_triplet (IntMinMaxRangeFlagOnFlagSet name shorthand) name (PInt 0)
    (intRangeValidator name) (fun cl k => validators cl !! k).
Proof. triplet_tac name. Qed.

Lemma int32_triplet (name : string) (shorthand : option string) :
  registers_triplet (Int32MinMaxRangeFlagOnFlagSet name shorthand) name (PInt32 0)
    (int32RangeValidator name) (fun cl k => validators cl !! k).
Proof. triplet_tac name. Qed.

Lemma float64_triplet (name : string) (shorthand : option string) :
  registers_triplet (Float64MinMaxRangeFlagOnFlagSet name shorthand) name
    (PFloat64 (S754_zero false)) (float64RangeValidator name)
    (fun cl k => validators cl !! k).
Proof. triplet_tac name. Qed.

Lemma byteQuantity_triplet (name : string) (shorthand : option string) :
  registers_triplet (ByteQuantityMinMaxRangeFlagOnFlagSet name shorthand) name
    (PString "") (byteQuantityRangeValidator name)
    (fun _ k => Some (Some (byteQuantityValidator k))).
Proof. triplet_tac name. Qed.

(** The validator of a byte-quantity bound is not an ordering validator:
    on a raw string and an empty table the first fails, the second returns
    nil. *)
Lemma byteQuantityValidator_not_ordering (k name : string) :
  byteQuantityValidator k ≠ byteQuantityRangeValidator name.
Proof.
  intros Heq.
  assert (Hat : fst (byteQuantityValidator k (Some (PString "")) ∅) =
                fst (byteQuantityRangeValidator name (Some (PString "")) ∅))
    by (rewrite Heq; reflexivity).
  unfold byteQuantityValidator, byteQuantityRangeValidator, index in Hat.
  rewrite !lookup_empty in Hat. discriminate Hat.
Qed.

(** C1: the validator a range triplet of any of the four kinds puts under
    its base name returns an error exactly when both bounds are present and
    the lower exceeds the upper, and that error names both flags; with a nil
    bound it returns nil; it never writes. *)
Theorem ordering_validators (name : string) (shorthand : option string) :
  ((∀ d cl, validators (IntMinMaxRangeFlagOnFlagSet name shorthand d cl) !! name =
            Some (Some (intRangeValidator name))) ∧
   orders_by (intRangeValidator name) name PInt Z.gtb) ∧
  ((∀ d cl, validators (Int32MinMaxRangeFlagOnFlagSet name shorthand d cl) !! name =
            Some (Some (int32RangeValidator name))) ∧
   orders_by (int32RangeValidator name) name PInt32 Z.gtb) ∧
  ((∀ d cl, validators (Float64MinMaxRangeFlagOnFlagSet name shorthand d cl) !! name =
            Some (Some (float64RangeValidator name))) ∧
   orders_by (float64RangeValidator name) name PFloat64 Float64.gt) ∧
  ((∀ d cl, validators (ByteQuantityMinMaxRangeFlagOnFlagSet name shorthand d cl) !! name =
            Some (Some (byteQuantityRangeValidator name))) ∧
   orders_by (byteQuantityRangeValidator name) name PByteQuantity
     (fun a b => MiB a >? MiB b)).
Proof.
  repeat split_and.
  - intros d cl. apply (int_triplet name shorthand d cl).
  - apply intRangeValidator_orders.
  - intros d cl. apply (int32_triplet name shorthand d cl).
  - apply int32RangeValidator_orders.
  - intros d cl. apply (float64_triplet name shorthand d cl).
  - apply float64RangeValidator_orders.
  - intros d cl. apply (byteQuantity_triplet name shorthand d cl).
  - apply byteQuantityRangeValidator_orders.
Qed.

(** C6: the ordering validator of a byte-quantity triplet decides on the
    magnitudes [MiB] of the two bounds: with both bounds present as byte
    quantities it fails exactly when the magnitude of the lower exceeds that
    of the upper; a bound still held as a raw string is never compared (the
    type assertion panics). *)
Theorem byteQuantity_order_by_magnitude (name : string) (val : iface)
    (fl : gmap string iface) :
  (∀ minBq maxBq,
     index fl (name +:+ "-min") = Some (PByteQuantity minBq) →
     index fl (name +:+ "-max") = Some (PByteQuantity maxBq) →
     byteQuantityRangeValidator name val fl =
       (if MiB minBq >? MiB maxBq
        then Errorf (rangeErrorMsg (name +:+ "-min") (name +:+ "-max"))
        else Nil, fl)) ∧
  ((∃ msg, fst (byteQuantityRangeValidator name val fl) = Errorf msg) ↔
   (∃ minBq maxBq,
      index fl (name +:+ "-min") = Some (PByteQuantity minBq) ∧
      index fl (name +:+ "-max") = Some (PByteQuantity maxBq) ∧
      MiB minBq > MiB maxBq)) ∧
  (∀ s v, index fl (name +:+ "-min") = Some (PString s) →
          index fl (name +:+ "-max") = Some v →
          byteQuantityRangeValidator name val fl = (Panic, fl)) ∧
  (∀ v s, index fl (name +:+ "-min") = Some v →
          index fl (name +:+ "-max") = Some (PString s) →
          byteQuantityRangeValidator name val fl = (Panic, fl)).
Proof.
  repeat split_and.
  - intros minBq maxBq Hmin Hmax. unfold byteQuantityRangeValidator.
    rewrite Hmin, Hmax. destruct (MiB minBq >? MiB maxBq); reflexivity.
  - destruct (byteQuantityRangeValidator_orders name val fl) as (_ & [Hl Hr] & _).
    split.
    + intros (a & b & Ha & Hb & Hgt)%Hl. exists a, b. repeat split; try assumption.
      apply Z.gtb_gt. exact Hgt.
    + intros (a & b & Ha & Hb & Hgt). apply Hr. exists a, b.
      repeat split; try assumption. apply Z.gtb_gt. exact Hgt.
  - intros s v Hmin Hmax. unfold byteQuantityRangeValidator.
    rewrite Hmin, Hmax. reflexivity.
  - intros v s Hmin Hmax. unfold byteQuantityRangeValidator.
    rewrite Hmin, Hmax. destruct v; reflexivity.
Qed.

(** C9: in a triplet of any of the four kinds the two bounds are registered
    with a nil default, whatever the default of the base flag: both are in
    [nilDefaults] with the zero sentinel; [rangeFlags] gains the base name
    only, and the ordering validator sits under the base name only (the bounds
    of a byte-quantity triplet carry the byte-quantity validator, which is
    another function). *)
Theorem triplet_bounds_unset (name : string) (shorthand : option string) :
  registers_triplet (IntMinMaxRangeFlagOnFlagSet name shorthand) name (PInt 0)
    (intRangeValidator name) (fun cl k => validators cl !! k) ∧
  registers_triplet (Int32MinMaxRangeFlagOnFlagSet name shorthand) name (PInt32 0)
    (int32RangeValidator name) (fun cl k => validators cl !! k) ∧
  registers_triplet (Float64MinMaxRangeFlagOnFlagSet name shorthand) name
    (PFloat64 (S754_zero false)) (float64RangeValidator name)
    (fun cl k => validators cl !! k) ∧
  registers_triplet (ByteQuantityMinMaxRangeFlagOnFlagSet name shorthand) name
    (PString "") (byteQuantityRangeValidator name)
    (fun _ k => Some (Some (byteQuantityValidator k))) ∧
  (∀ k, byteQuantityValidator k ≠ byteQuantityRangeValidator name).
Proof.
  repeat split_and.
  - apply int_triplet.
  - apply int32_triplet.
  - apply float64_triplet.
  - apply byteQuantity_triplet.
  - intros k. apply byteQuantityValidator_not_ordering.
Qed.

(** *** What validators and processors write *)

Lemma ratioValidator_writes (name : string) :
  writes_own_on_success name (ratioValidator name).
Proof.
  intros val fl. unfold ratioValidator.
  destruct val as [[]|]; simpl; try (left; reflexivity).
  destruct (negb (MatchString_ratio s)); [left; reflexivity|].
  destruct (Split s colon) as [|v0 [|v1 rest]]; try (left; reflexivity).
  destruct (Atoi v0) as [a|], (Atoi v1) as [b|]; try (left; reflexivity).
  right. split; [discriminate|]. split; [reflexivity|]. eexists. reflexivity.
Qed.

Lemma rangeValidators_read_only (name : string) :
  read_only (intRangeValidator name) ∧ read_only (int32RangeValidator name) ∧
  read_only (float64RangeValidator name) ∧ read_only (byteQuantityRangeValidator name).
Proof.
  repeat split_and; intros val fl.
  - apply (intRangeValidator_orders name val fl).
  - apply (int32RangeValidator_orders name val fl).
  - apply (float64RangeValidator_orders name val fl).
  - apply (byteQuantityRangeValidator_orders name val fl).
Qed.

Lemma byteQuantityValidator_read_only (name : string) :
  read_only (byteQuantityValidator name).
Proof. intros [[]|] fl; reflexivity. Qed.

Lemma regexValidator_read_only (name : string) : read_only (regexValidator name).
Proof. intros [[]|] fl; reflexivity. Qed.

Lemma stringOptionsValidator_read_only (name : string) (validOpts : list string) :
  read_only (stringOptionsValidator name validOpts).
Proof.
  intros [v|] fl; unfold stringOptionsValidator; [|reflexivity].
  destruct (optionsLoop validOpts v) as [[]|]; reflexivity.
Qed.

Ltac pick_disjunct :=
  first [ reflexivity | assumption | (eexists; reflexivity)
        | (split; [reflexivity|pick_disjunct])
        | (left; pick_disjunct) | (right; pick_disjunct) ].



(** C10: the four functions that rewrite the registry do so as their last
    step: whenever one of them does not return nil (it returns an error, or
    panics), the registry, and with it the flag's own slot, is what it was. *)
Theorem failure_leaves_registry (name : string) (val : iface) (fl : gmap string iface) :
  (fst (ratioValidator name val fl) ≠ Nil →
   snd (ratioValidator name val fl) = fl ∧
   index (snd (ratioValidator name val fl)) name = index fl name) ∧
  (fst (byteQuantityProcessor name val fl) ≠ Nil →
   snd (byteQuantityProcessor name val fl) = fl ∧
   index (snd (byteQuantityProcessor name val fl)) name = index fl name) ∧
  (fst (regexProcessor name val fl) ≠ Nil →
   snd (regexProcessor name val fl) = fl ∧
   index (snd (regexProcessor name val fl)) name = index fl name) ∧
  (fst (pathProcessor name val fl) ≠ Nil →
   snd (pathProcessor name val fl) = fl ∧
   index (snd (pathProcessor name val fl)) name = index fl name).
Proof.
  assert (Hidx : ∀ fl' : gmap string iface, fl' = fl → fl' = fl ∧ index fl' name = index fl name)
    by (intros fl' ->; split; reflexivity).
  repeat split_and; intros Hfail; apply Hidx.
  - destruct (ratioValidator_writes name val fl) as [H|(_ & Hnil & _)];
      [exact H | contradiction].
  - revert Hfail. unfold byteQuantityProcessor.
    destruct val as [[]|]; simpl; try reflexivity.
    destruct (ParseToByteQuantity s); simpl; [contradiction|reflexivity].
  - revert Hfail. unfold regexProcessor.
    destruct val as [[]|]; simpl; try reflexivity.
    destruct (regexp_Compile s); simpl; [contradiction|reflexivity].
  - revert Hfail. unfold pathProcessor.
    destruct val as [[]|]; simpl; try reflexivity.
    destruct (homedir_Expand s); simpl; [contradiction|reflexivity].
Qed.

(** *** Messages *)

Lemma append_assoc (a b c : string) : (a +:+ b) +:+ c = a +:+ b +:+ c.
Proof.
  induction a as [|x a IH]; [reflexivity|].
  exact (f_equal (String x) IH).
Qed.

Lemma regex_message (name tail : string) :
  regexInvalidInputMsg name +:+ tail =
  "Invalid regex input for --" +:+ name +:+ "." +:+ tail.
Proof. unfold regexInvalidInputMsg. rewrite !append_assoc. reflexivity. Qed.

(** C8: on a string the regex processor stores the compiled expression and
    returns nil when [regexp.Compile] succeeds, and fails with an error naming
    the flag, writing nothing, when it does not; on nil or an expression
    already compiled it returns nil and writes nothing; on any other kind of
    value it fails. *)
Theorem regexProcessor_compiles (name : string) (fl : gmap string iface) :
  (∀ s re, regexp_Compile s = Some re →
     regexProcessor name (Some (PString s)) fl = (Nil, <[name := Some (PRegexp re)]> fl)) ∧
  (∀ s, regexp_Compile s = None →
     regexProcessor name (Some (PString s)) fl =
       (Errorf ("Invalid regex input for --" +:+ name +:+ ". Unable to compile the regex"),
        fl)) ∧
  regexProcessor name None fl = (Nil, fl) ∧
  (∀ re, regexProcessor name (Some (PRegexp re)) fl = (Nil, fl)) ∧
  (∀ v, (∀ s, v ≠ PString s) → (∀ re, v ≠ PRegexp re) →
     regexProcessor name (Some v) fl =
       (Errorf ("Invalid regex input for --" +:+ name +:+ ". Input type is unsupported"),
        fl)).
Proof.
  repeat split_and.
  - intros s re Hc. unfold regexProcessor. rewrite Hc. reflexivity.
  - intros s Hc. unfold regexProcessor. rewrite Hc, regex_message. reflexivity.
  - reflexivity.
  - reflexivity.
  - intros v Hs Hre. unfold regexProcessor.
    destruct v; try (rewrite regex_message; reflexivity).
    + destruct (Hs s); reflexivity.
    + destruct (Hre re); reflexivity.
Qed.

(** *** [strings.EqualFold] on ASCII strings *)

Lemma byte_of_nonneg (c : Ascii.ascii) : 0 ≤ byte_of c.
Proof. unfold byte_of. lia. Qed.

Lemma lor_ascii (a b : Z) : 0 ≤ a < 128 → 0 ≤ b < 128 → Z.lor a b < 128.
Proof.
  intros Ha Hb. change 128 with (2 ^ 7).
  apply Z.bounded_iff_bits_nonneg; [lia| apply Z.lor_nonneg; lia |].
  intros l Hl. rewrite Z.lor_spec.
  assert (Ha7 : a < 2 ^ 7) by (change (2 ^ 7) with 128; lia).
  assert (Hb7 : b < 2 ^ 7) by (change (2 ^ 7) with 128; lia).
  rewrite (proj1 (Z.bounded_iff_bits_nonneg 7 a ltac:(lia) ltac:(lia)) Ha7 l Hl).
  rewrite (proj1 (Z.bounded_iff_bits_nonneg 7 b ltac:(lia) ltac:(lia)) Hb7 l Hl).
  reflexivity.
Qed.

Lemma EqualFold_ascii (s t : string) :
  isASCII s = true → isASCII t = true →
  (EqualFold s t = true ↔ lowerBytes s = lowerBytes t).
Proof.
  tidy.
  revert t. induction s as [|a s IH]; intros [|b t]; simpl; try (intros; split; congruence).
  intros [Ha Hs]%andb_prop [Hb Ht]%andb_prop.
  apply Z.ltb_lt in Ha, Hb.
  pose proof (byte_of_nonneg a). pose proof (byte_of_nonneg b).
  pose proof (lor_ascii (byte_of a) (byte_of b) ltac:(lia) ltac:(lia)) as Hlor.
  destruct (Z.leb_spec 128 (Z.lor (byte_of a) (byte_of b))) as [?|_]; [lia|].
  specialize (IH t Hs Ht).
  assert (Hcons : ∀ P : Prop, (P ↔ lowerByte (byte_of a) = lowerByte (byte_of b)) →
            (P ∧ EqualFold s t = true ↔
             lowerByte (byte_of a) :: lowerBytes s = lowerByte (byte_of b) :: lowerBytes t)).
  { intros P HP. rewrite HP, IH. split.
    - intros [-> ->]. reflexivity.
    - intros Heq. injection Heq as -> ->. split; reflexivity. }
  destruct (Z.eqb_spec (byte_of b) (byte_of a)) as [Heq|Hne].
  - rewrite <- (Hcons True); [tauto|]. rewrite Heq. tauto.
  - assert (Hhead : ∀ x y, x < y → x ≠ y →
              ((65 <=? x) && (x <=? 90) && (y =? x + 97 - 65) = true ↔
               lowerByte x = lowerByte y)).
    { intros x y Hlt Hxy. unfold lowerByte.
      destruct (Z.leb_spec 65 x), (Z.leb_spec x 90), (Z.leb_spec 65 y), (Z.leb_spec y 90),
        (Z.eqb_spec y (x + 97 - 65)); simpl; split; intros; try discriminate; lia. }
    destruct (Z.ltb_spec (byte_of b) (byte_of a)) as [Hlt|Hge].
    + specialize (Hhead (byte_of b) (byte_of a) Hlt Hne).
      destruct ((65 <=? byte_of b) && (byte_of b <=? 90) &&
                (byte_of a =? byte_of b + 97 - 65)) eqn:Hc.
      * rewrite <- (Hcons True); [tauto|]. split; [intros _; symmetry; tauto|tauto].
      * split; [discriminate|]. intros Heq. injection Heq as Heq _.
        symmetry in Heq. apply Hhead in Heq. discriminate Heq.
    + assert (Hlt : byte_of a < byte_of b) by lia.
      specialize (Hhead (byte_of a) (byte_of b) Hlt ltac:(lia)).
      destruct ((65 <=? byte_of a) && (byte_of a <=? 90) &&
                (byte_of b =? byte_of a + 97 - 65)) eqn:Hc.
      * rewrite <- (Hcons True); tauto.
      * split; [discriminate|]. intros Heq. injection Heq as Heq _.
        apply Hhead in Heq. discriminate Heq.
Qed.

Lemma optionsLoop_string (validOpts : list string) (s : string) :
  optionsLoop validOpts (PString s) = Some (existsb (fun v => EqualFold v s) validOpts).
Proof.
  induction validOpts as [|v rest IH]; simpl; [reflexivity|].
  destruct (EqualFold v s); simpl; [reflexivity|exact IH].
Qed.

Lemma existsb_EqualFold (validOpts : list string) (s : string) :
  existsb (fun v => EqualFold v s) validOpts = true ↔
  ∃ v, v ∈ validOpts ∧ EqualFold v s = true.
Proof.
  induction validOpts as [|v rest IH]; simpl.
  - split; [discriminate|]. intros (v & Hin & _). apply elem_of_nil in Hin. contradiction.
  - rewrite orb_true_iff, IH. split.
    + intros [Hv|(w & Hin & Hw)].
      * exists v. split; [apply elem_of_cons; left; reflexivity|exact Hv].
      * exists w. split; [apply elem_of_cons; right; exact Hin|exact Hw].
    + intros (w & [->|Hin]%elem_of_cons & Hw); [left; exact Hw|].
      right. exists w. split; assumption.
Qed.

(** C7: the validator of a string-options flag returns nil on nil, and on a
    string exactly when [strings.EqualFold] equates it with an element of the
    allow-list, that is, for ASCII strings, when the two are equal once
    lower-cased; otherwise it fails with the message that lists the allowed
    values, joined by commas.  It writes nothing. *)
Theorem stringOptionsValidator_membership (name : string) (validOpts : list string)
    (fl : gmap string iface) :
  stringOptionsValidator name validOpts None fl = (Nil, fl) ∧
  (∀ s, (∃ v, v ∈ validOpts ∧ EqualFold v s = true) →
        stringOptionsValidator name validOpts (Some (PString s)) fl = (Nil, fl)) ∧
  (∀ s, ¬ (∃ v, v ∈ validOpts ∧ EqualFold v s = true) →
        stringOptionsValidator name validOpts (Some (PString s)) fl =
          (Errorf ("error " +:+ name +:+ " must be one of: " +:+ Join validOpts ", "), fl)) ∧
  (∀ s, isASCII s = true → Forall (fun v => isASCII v = true) validOpts →
        (fst (stringOptionsValidator name validOpts (Some (PString s)) fl) = Nil ↔
         ∃ v, v ∈ validOpts ∧ lowerBytes v = lowerBytes s)) ∧
  stringOptionsValidator name ["a"; "b"; "c"] (Some (PString "B")) fl = (Nil, fl) ∧
  stringOptionsValidator name ["a"; "b"; "c"] (Some (PString "d")) fl =
    (Errorf ("error " +:+ name +:+ " must be one of: a, b, c"), fl).
Proof.
  assert (Hrun : ∀ opts s, stringOptionsValidator name opts (Some (PString s)) fl =
            (if existsb (fun v => EqualFold v s) opts then Nil
             else Errorf ("error " +:+ name +:+ " must be one of: " +:+ Join opts ", "), fl)).
  { intros opts s. unfold stringOptionsValidator. rewrite optionsLoop_string.
    destruct (existsb _ opts); reflexivity. }
  repeat split_and.
  - reflexivity.
  - intros s Hex%existsb_EqualFold. rewrite Hrun, Hex. reflexivity.
  - intros s Hno. rewrite Hrun.
    destruct (existsb (fun v => EqualFold v s) validOpts) eqn:Hex; [|reflexivity].
    apply existsb_EqualFold in Hex. contradiction.
  - intros s Hs Hopts. rewrite Hrun.
    assert (Hiff : (∃ v, v ∈ validOpts ∧ EqualFold v s = true) ↔
                   (∃ v, v ∈ validOpts ∧ lowerBytes v = lowerBytes s)).
    { split; intros (v & Hin & Hv); exists v; (split; [exact Hin|]);
        (apply EqualFold_ascii; [|exact Hs|exact Hv]);
        exact (proj1 (Forall_forall _ _) Hopts v Hin). }
    rewrite <- Hiff, <- existsb_EqualFold.
    destruct (existsb (fun v => EqualFold v s) validOpts); simpl; split; congruence.
  - rewrite Hrun. reflexivity.
  - rewrite Hrun. reflexivity.
Qed.

(** *** The ratio validator against the grammar *)

Lemma digit_not_colon (c : Ascii.ascii) : isDigit c = true → Ascii.eqb c colon = false.
Proof.
  intros Hc. destruct (Ascii.eqb c colon) eqn:Heq; [|reflexivity].
  apply Ascii.eqb_eq in Heq. subst c. discriminate Hc.
Qed.

Lemma append_cons (c : Ascii.ascii) (a r : string) : String c a +:+ r = String c (a +:+ r).
Proof. reflexivity. Qed.

Lemma colon_append (r : string) : ":" +:+ r = String colon r.
Proof. reflexivity. Qed.

Lemma skipDigits_app (a r : string) : allDigits a = true → skipDigits (a +:+ r) = skipDigits r.
Proof.
  induction a as [|c a IH]; [reflexivity|].
  intros [Hc Ha]%andb_prop. rewrite append_cons. cbn [skipDigits].
  rewrite Hc. exact (IH Ha).
Qed.

Lemma skipDigits_split (r : string) :
  ∃ a, allDigits a = true ∧ r = a +:+ skipDigits r.
Proof.
  induction r as [|c r (a & Ha & Hr)].
  - exists "". split; reflexivity.
  - cbn [skipDigits]. destruct (isDigit c) eqn:Hc.
    + exists (String c a). cbn [allDigits]. rewrite append_cons, Hc, Ha, <- Hr.
      split; reflexivity.
    + exists "". split; reflexivity.
Qed.

Lemma skipDigits_empty (r : string) : skipDigits r = "" → allDigits r = true.
Proof.
  induction r as [|c r IH]; cbn [skipDigits allDigits]; [reflexivity|].
  destruct (isDigit c); [exact IH|discriminate].
Qed.

Lemma allDigits_skip (r : string) : allDigits r = true → skipDigits r = "".
Proof.
  induction r as [|c r IH]; cbn [skipDigits allDigits]; [reflexivity|].
  intros [Hc Hr]%andb_prop. rewrite Hc. exact (IH Hr).
Qed.

Lemma skipDigits_colon (r : string) : skipDigits (String colon r) = String colon r.
Proof. reflexivity. Qed.

Lemma MatchString_ratio_grammar (s : string) :
  MatchString_ratio s = true ↔ ratioGrammar s.
Proof.
  split.
  - destruct s as [|c r]; cbn [MatchString_ratio]; [discriminate|].
    intros [Hc Hrest]%andb_prop.
    destruct (skipDigits_split r) as (a & Ha & Hr).
    destruct (skipDigits r) as [|sep [|d r']]; try discriminate Hrest.
    apply andb_prop in Hrest as [[Hsep%Ascii.eqb_eq Hd]%andb_prop Hend].
    subst sep.
    assert (Hr' : allDigits r' = true).
    { apply skipDigits_empty. destruct (skipDigits r'); [reflexivity|discriminate]. }
    exists (String c a), (String d r'). repeat split.
    + discriminate.
    + cbn [allDigits]. rewrite Hc, Ha. reflexivity.
    + discriminate.
    + cbn [allDigits]. rewrite Hd, Hr'. reflexivity.
    + rewrite append_cons, colon_append, <- Hr. reflexivity.
  - intros (a & b & [Hane Ha] & [Hbne Hb] & ->).
    destruct a as [|c a]; [contradiction|]. destruct b as [|d b]; [contradiction|].
    cbn [allDigits] in Ha, Hb.
    apply andb_prop in Ha as [Hc Ha]. apply andb_prop in Hb as [Hd Hb].
    rewrite append_cons, colon_append. cbn [MatchString_ratio].
    rewrite Hc, (skipDigits_app a _ Ha), skipDigits_colon.
    rewrite Ascii.eqb_refl, Hd, (allDigits_skip b Hb). reflexivity.
Qed.

Lemma Split_number (b : string) : allDigits b = true → Split b colon = [b].
Proof.
  induction b as [|c b IH]; cbn [Split allDigits]; [reflexivity|].
  intros [Hc Hb]%andb_prop. rewrite (digit_not_colon c Hc), (IH Hb). reflexivity.
Qed.

Lemma Split_ratio (a b : string) :
  allDigits a = true → allDigits b = true → Split (a +:+ ":" +:+ b) colon = [a; b].
Proof.
  intros Ha Hb. induction a as [|c a IH].
  - change ("" +:+ ":" +:+ b) with (String colon b). cbn [Split].
    rewrite Ascii.eqb_refl, (Split_number b Hb). reflexivity.
  - cbn [allDigits] in Ha. apply andb_prop in Ha as [Hc Ha].
    rewrite append_cons. cbn [Split].
    rewrite (digit_not_colon c Hc), (IH Ha). reflexivity.
Qed.

Lemma decimalFrom_digits (s : string) (acc : Z) :
  allDigits s = true → 0 ≤ acc →
  parseDigits acc s = Some (decimalFrom acc s) ∧ acc ≤ decimalFrom acc s.
Proof.
  revert acc. induction s as [|c s IH]; cbn [allDigits parseDigits decimalFrom];
    intros acc Hs Hacc.
  - split; [reflexivity|lia].
  - apply andb_prop in Hs as [Hc Hs]. rewrite Hc.
    unfold isDigit in Hc. apply andb_prop in Hc as [Hlo%Z.leb_le Hhi%Z.leb_le].
    destruct (IH (10 * acc + (byte_of c - 48)) Hs ltac:(lia)) as [Hp Hle].
    split; [exact Hp|lia].
Qed.

Lemma maxInt_value : maxInt = 9223372036854775807.
Proof. vm_compute. reflexivity. Qed.

Lemma minInt_value : minInt = -9223372036854775808.
Proof. vm_compute. reflexivity. Qed.

Lemma Atoi_number (a : string) :
  number a → Atoi a = if decimal a <=? maxInt then Some (decimal a) else None.
Proof.
  intros [Hne Ha]. destruct a as [|c a]; [contradiction|].
  destruct (decimalFrom_digits (String c a) 0 Ha ltac:(lia)) as [Hp Hle].
  pose proof Ha as Hc. cbn [allDigits] in Hc. apply andb_prop in Hc as [Hc _].
  unfold isDigit in Hc. apply andb_prop in Hc as [Hlo%Z.leb_le Hhi%Z.leb_le].
  unfold Atoi.
  destruct (Z.eqb_spec (byte_of c) 43) as [?|_]; [lia|].
  destruct (Z.eqb_spec (byte_of c) 45) as [?|_]; [lia|].
  rewrite Hp. fold (decimal (String c a)) in Hle |- *.
  destruct (Z.leb_spec minInt (decimal (String c a))) as [_|Hlt]; [reflexivity|].
  rewrite minInt_value in Hlt. lia.
Qed.

(** The whole of the validator on a text of the grammar: the two range
    checks of [Atoi] decide. *)
Lemma ratioValidator_grammar (name a b : string) (fl : gmap string iface) :
  number a → number b →
  ratioValidator name (Some (PString (a +:+ ":" +:+ b))) fl =
    if (decimal a <=? maxInt) && (decimal b <=? maxInt)
    then (Nil, <[name := Some (PFloat64 (Float64.div (Float64.of_int (decimal b))
                                                     (Float64.of_int (decimal a))))]> fl)
    else (Errorf ("invalid input for --" +:+ name +:+
                  ". Ratio values must be integers. A valid example is 1:2"), fl).
Proof.
  intros Ha Hb. unfold ratioValidator.
  assert (Hm : MatchString_ratio (a +:+ ":" +:+ b) = true).
  { apply MatchString_ratio_grammar. exists a, b. auto. }
  rewrite Hm. cbn [negb].
  rewrite (Split_ratio a b (proj2 Ha) (proj2 Hb)).
  rewrite (Atoi_number a Ha), (Atoi_number b Hb).
  destruct (decimal a <=? maxInt), (decimal b <=? maxInt); reflexivity.
Qed.

Lemma ratioValidator_no_match (name s : string) (fl : gmap string iface) :
  ¬ ratioGrammar s →
  ratioValidator name (Some (PString s)) fl =
    (Errorf ("invalid input for --" +:+ name +:+ ". A valid example is 1:2"), fl).
Proof.
  intros Hno. unfold ratioValidator.
  destruct (MatchString_ratio s) eqn:Hm; [|reflexivity].
  apply MatchString_ratio_grammar in Hm. contradiction.
Qed.

(** *** Division by a zero first component *)

(** The float of a non-negative [int] is not negative. *)
Lemma of_int_sign (n : Z) :
  0 ≤ n →
  match Float64.of_int n with
  | S754_zero sgn | S754_infinity sgn | S754_finite sgn _ _ => sgn = false
  | S754_nan => True
  end.
Proof.
  intros Hn. destruct n as [|p|p]; [reflexivity| |lia].
  unfold Float64.of_int, binary_normalize, binary_round.
  destruct (shl_align p 0 _) as [mz ez]. unfold binary_round_aux.
  destruct (shr_fexp _ _ _ _ _) as [mrs' e'].
  destruct (shr_fexp _ _ _ _ _) as [mrs'' e''].
  destruct (shr_m mrs''); [reflexivity| |exact I].
  destruct (Z.leb _ _); reflexivity.
Qed.

Lemma div_by_zero (n : Z) :
  0 ≤ n →
  Float64.div (Float64.of_int n) (Float64.of_int 0) = S754_nan ∨
  Float64.div (Float64.of_int n) (Float64.of_int 0) = S754_infinity false.
Proof.
  intros Hn. pose proof (of_int_sign n Hn) as Hsgn.
  change (Float64.of_int 0) with (S754_zero false). unfold Float64.div.
  destruct (Float64.of_int n); cbn [SFdiv]; try subst; auto.
Qed.

Lemma decimal_nonneg (a : string) : number a → 0 ≤ decimal a.
Proof. intros [_ Ha]. apply (decimalFrom_digits a 0 Ha). lia. Qed.

(** C2, as the code has it: a ratio whose first component is zero is not
    rejected.  Provided the second component fits an [int], the validator
    returns nil and stores the quotient of the second component by zero, which
    is no finite number: it is plus infinity or a NaN; for the text 0:5 it is
    plus infinity. *)
Theorem ratio_zero_first_stores_infinity (name : string) (fl : gmap string iface) :
  (∀ a b, number a → number b → decimal a = 0 → decimal b ≤ maxInt →
     ratioValidator name (Some (PString (a +:+ ":" +:+ b))) fl =
       (Nil, <[name := Some (PFloat64 (Float64.div (Float64.of_int (decimal b))
                                                   (Float64.of_int 0)))]> fl) ∧
     (Float64.div (Float64.of_int (decimal b)) (Float64.of_int 0) = S754_nan ∨
      Float64.div (Float64.of_int (decimal b)) (Float64.of_int 0) = S754_infinity false)) ∧
  ratioValidator name (Some (PString "0:5")) fl =
    (Nil, <[name := Some (PFloat64 (S754_infinity false))]> fl).
Proof.
  assert (Hgen : ∀ a b, number a → number b → decimal a = 0 → decimal b ≤ maxInt →
            ratioValidator name (Some (PString (a +:+ ":" +:+ b))) fl =
              (Nil, <[name := Some (PFloat64 (Float64.div (Float64.of_int (decimal b))
                                                          (Float64.of_int 0)))]> fl)).
  { intros a b Ha Hb Hz Hmax. rewrite (ratioValidator_grammar name a b fl Ha Hb), Hz.
    destruct (Z.leb_spec 0 maxInt) as [_|Hlt]; [|rewrite maxInt_value in Hlt; lia].
    destruct (Z.leb_spec (decimal b) maxInt) as [_|Hlt]; [reflexivity|lia]. }
  split.
  - intros a b Ha Hb Hz Hmax. split; [exact (Hgen a b Ha Hb Hz Hmax)|].
    apply div_by_zero, decimal_nonneg, Hb.
  - apply (Hgen "0" "5"); try (split; [discriminate|reflexivity]); [reflexivity|].
    rewrite maxInt_value. vm_compute. discriminate.
Qed.

(** C3, as the code has it: a text of the grammar whose first component is
    not zero is accepted when both components fit an [int] (at most
    [maxInt]), and the flag's slot then holds the quotient second/first as a
    float: 2.0 for 1:2 and 0.5 for 2:1; with a component beyond [maxInt] it
    is rejected; a text outside the grammar, such as abc or 1-2, is rejected
    with an error naming the flag, and nothing is written. *)
Theorem ratio_accepts_grammar (name : string) (fl : gmap string iface) :
  (∀ a b, number a → number b → decimal a ≠ 0 →
     decimal a ≤ maxInt → decimal b ≤ maxInt →
     ratioValidator name (Some (PString (a +:+ ":" +:+ b))) fl =
       (Nil, <[name := Some (PFloat64 (Float64.div (Float64.of_int (decimal b))
                                                   (Float64.of_int (decimal a))))]> fl)) ∧
  (∀ a b, number a → number b → maxInt < decimal a ∨ maxInt < decimal b →
     ratioValidator name (Some (PString (a +:+ ":" +:+ b))) fl =
       (Errorf ("invalid input for --" +:+ name +:+
                ". Ratio values must be integers. A valid example is 1:2"), fl)) ∧
  (∀ s, ¬ ratioGrammar s →
     ratioValidator name (Some (PString s)) fl =
       (Errorf ("invalid input for --" +:+ name +:+ ". A valid example is 1:2"), fl)) ∧
  ratioValidator name (Some (PString "1:2")) fl =
    (Nil, <[name := Some (PFloat64 Float64.two)]> fl) ∧
  ratioValidator name (Some (PString "2:1")) fl =
    (Nil, <[name := Some (PFloat64 Float64.half)]> fl) ∧
  ratioValidator name (Some (PString "abc")) fl =
    (Errorf ("invalid input for --" +:+ name +:+ ". A valid example is 1:2"), fl) ∧
  ratioValidator name (Some (PString "1-2")) fl =
    (Errorf ("invalid input for --" +:+ name +:+ ". A valid example is 1:2"), fl).
Proof.
  assert (Hacc : ∀ a b, number a → number b →
            decimal a ≤ maxInt → decimal b ≤ maxInt →
            ratioValidator name (Some (PString (a +:+ ":" +:+ b))) fl =
              (Nil, <[name := Some (PFloat64 (Float64.div (Float64.of_int (decimal b))
                                               (Float64.of_int (decimal a))))]> fl)).
  { intros a b Ha Hb Hamax Hbmax. rewrite (ratioValidator_grammar name a b fl Ha Hb).
    destruct (Z.leb_spec (decimal a) maxInt) as [_|Hlt]; [|lia].
    destruct (Z.leb_spec (decimal b) maxInt) as [_|Hlt]; [reflexivity|lia]. }
  repeat split_and.
  - intros a b Ha Hb _. apply Hacc; assumption.
  - intros a b Ha Hb Hover. rewrite (ratioValidator_grammar name a b fl Ha Hb).
    destruct (Z.leb_spec (decimal a) maxInt), (Z.leb_spec (decimal b) maxInt);
      try reflexivity; lia.
  - intros s Hs. apply ratioValidator_no_match. exact Hs.
  - apply (Hacc "1" "2"); try (split; [discriminate|reflexivity]);
      rewrite maxInt_value; vm_compute; discriminate.
  - apply (Hacc "2" "1"); try (split; [discriminate|reflexivity]);
      rewrite maxInt_value; vm_compute; discriminate.
  - reflexivity.
  - reflexivity.
Qed.

(** ** Further properties of the registrations *)

(** What a registration writes does not depend on what was registered
    before: it lays over the tables what it leaves in empty ones. *)
Lemma register_overlay (r : Registration) (cl : CommandLineInterface) :
  register r cl = overlay (register r noFlags) cl.
Proof.
  destruct r as [name sh d|name sh d|name sh d|name sh d|name sh d p vf|name sh d
                |name sh d|name sh d|name sh d|name sh d|name sh d opts
                |name sh d|name sh d|name sh d|name sh d];
    cbn [register]; builders_eq; destruct d;
    unfold overlay, noFlags; cbn [Flags nilDefaults rangeFlags validators processors];
    rewrite <- ?insert_union_l, ?(left_id_L ∅ (∪)); reflexivity.
Qed.

Ltac each_registration r :=
  destruct r as [name sh d|name sh d|name sh d|name sh d|name sh d p vf|name sh d
                |name sh d|name sh d|name sh d|name sh d|name sh d opts
                |name sh d|name sh d|name sh d|name sh d].

Lemma register_frame (r : Registration) (cl : CommandLineInterface) (k : string) :
  k ∉ names r →
  Flags (register r cl) !! k = Flags cl !! k ∧
  nilDefaults (register r cl) !! k = nilDefaults cl !! k ∧
  rangeFlags (register r cl) !! k = rangeFlags cl !! k ∧
  validators (register r cl) !! k = validators cl !! k ∧
  processors (register r cl) !! k = processors cl !! k.
Proof.
  each_registration r; unfold names; cbn [isTriplet baseName]; intros Hk;
    rewrite ?not_elem_of_cons in Hk; destruct_and? Hk;
    cbn [register]; builders_eq; destruct d;
    repeat split; lookup_chain; reflexivity.
Qed.

Lemma rangeFlags_register (r : Registration) (cl : CommandLineInterface) :
  rangeFlags (register r cl) =
  if isTriplet r then <[baseName r := true]> (rangeFlags cl) else rangeFlags cl.
Proof. each_registration r; cbn [register]; builders_eq; reflexivity. Qed.

(** X1: a registration touches the tables at the names it creates and
    nowhere else: under any other name the slot, the unset mark, the range
    mark, the validator and the processor are those from before; and only a
    triplet writes [rangeFlags] at all. *)
Theorem registration_touches_own_names (r : Registration) (cl : CommandLineInterface) :
  (∀ k, k ∉ names r →
     index (Flags (register r cl)) k = index (Flags cl) k ∧
     nilDefaults (register r cl) !! k = nilDefaults cl !! k ∧
     rangeFlags (register r cl) !! k = rangeFlags cl !! k ∧
     validators (register r cl) !! k = validators cl !! k ∧
     processors (register r cl) !! k = processors cl !! k) ∧
  (isTriplet r = false → rangeFlags (register r cl) = rangeFlags cl).
Proof.
  split.
  - intros k Hk. destruct (register_frame r cl k Hk) as (HF & HN & HR & HV & HP).
    unfold index. rewrite HF. auto.
  - intros Hno. rewrite rangeFlags_register, Hno. reflexivity.
Qed.

Lemma union_swap {A : Type} (a b m : gmap string A) :
  a ##ₘ b → a ∪ (b ∪ m) = b ∪ (a ∪ m).
Proof. intros Hab. rewrite !(assoc_L (∪)), (map_union_comm a b Hab). reflexivity. Qed.

Lemma disjoint_by_names {A : Type} (a b : gmap string A) (l1 l2 : list string) :
  (∀ k, k ∉ l1 → a !! k = None) → (∀ k, k ∉ l2 → b !! k = None) →
  (∀ k, k ∈ l1 → k ∉ l2) → a ##ₘ b.
Proof.
  intros Ha Hb Hl. apply map_disjoint_spec. intros k x y Hx Hy.
  destruct (decide (k ∈ l1)) as [Hin|Hout].
  - rewrite (Hb k (Hl k Hin)) in Hy. discriminate Hy.
  - rewrite (Ha k Hout) in Hx. discriminate Hx.
Qed.

(** X2: two registrations that create different names commute: the tables
    are the same whichever is called first. *)
Theorem registrations_commute (r1 r2 : Registration) (cl : CommandLineInterface) :
  (∀ k, k ∈ names r1 → k ∉ names r2) →
  register r1 (register r2 cl) = register r2 (register r1 cl).
Proof.
  intros Hsep.
  rewrite (register_overlay r1 (register r2 cl)), (register_overlay r2 cl),
    (register_overlay r2 (register r1 cl)), (register_overlay r1 cl).
  assert (Hempty : ∀ r k, k ∉ names r →
            Flags (register r noFlags) !! k = None ∧
            nilDefaults (register r noFlags) !! k = None ∧
            rangeFlags (register r noFlags) !! k = None ∧
            validators (register r noFlags) !! k = None ∧
            processors (register r noFlags) !! k = None).
  { intros r k Hk. destruct (register_frame r noFlags k Hk) as (HF & HN & HR & HV & HP).
    rewrite HF, HN, HR, HV, HP. unfold noFlags.
    cbn [Flags nilDefaults rangeFlags validators processors].
    rewrite !lookup_empty. auto. }
  unfold overlay. cbn [Flags nilDefaults rangeFlags validators processors].
  f_equal; apply union_swap;
    apply (disjoint_by_names _ _ (names r1) (names r2));
    try exact Hsep; intros k Hk; apply (Hempty _ k Hk).
Qed.

(** *** The two side tables over a whole program *)

Lemma nilDefaults_register (r : Registration) (cl : CommandLineInterface) (k : string) (b : bool) :
  nilDefaults (register r cl) !! k = Some b ↔
  nilDefaults cl !! k = Some b ∧ k ∉ unsetNames r ∨ b = true ∧ k ∈ unsetNames r.
Proof.
  each_registration r; cbn [register]; builders_eq; unfold unsetNames;
    cbn [defaultIsNil isTriplet baseName]; destruct d; cbn [isNone app];
    rewrite ?lookup_insert_Some, ?not_elem_of_cons, ?elem_of_cons, ?elem_of_nil;
    destruct (decide (k = name));
    destruct (decide (k = name +:+ "-min"));
    destruct (decide (k = name +:+ "-max")); intuition congruence.
Qed.

Lemma rangeFlags_register_lookup (r : Registration) (cl : CommandLineInterface)
    (k : string) (b : bool) :
  rangeFlags (register r cl) !! k = Some b ↔
  rangeFlags cl !! k = Some b ∧ ¬ (isTriplet r = true ∧ baseName r = k) ∨
  b = true ∧ isTriplet r = true ∧ baseName r = k.
Proof.
  rewrite rangeFlags_register. destruct (isTriplet r).
  - rewrite lookup_insert_Some. destruct (decide (baseName r = k)); naive_solver.
  - naive_solver.
Qed.

(** X3: after any sequence of registrations, [rangeFlags] marks exactly the
    names marked before and the base names of the triplets registered, and
    [nilDefaults] exactly the names marked before, the names registered with a
    nil default and the two bounds of every triplet; started from empty
    tables, neither ever holds false. *)
Theorem side_tables_exact (rs : list Registration) (cl : CommandLineInterface) (k : string) :
  (rangeFlags (registerAll rs cl) !! k = Some true ↔
   rangeFlags cl !! k = Some true ∨
   ∃ r, r ∈ rs ∧ isTriplet r = true ∧ baseName r = k) ∧
  (nilDefaults (registerAll rs cl) !! k = Some true ↔
   nilDefaults cl !! k = Some true ∨ ∃ r, r ∈ rs ∧ k ∈ unsetNames r) ∧
  rangeFlags (registerAll rs noFlags) !! k ≠ Some false ∧
  nilDefaults (registerAll rs noFlags) !! k ≠ Some false.
Proof.
  assert (Hfalse : ∀ rs cl,
            (rangeFlags (registerAll rs cl) !! k = Some false →
             rangeFlags cl !! k = Some false) ∧
            (nilDefaults (registerAll rs cl) !! k = Some false →
             nilDefaults cl !! k = Some false)).
  { clear rs cl. induction rs as [|r rs IH]; intros cl; cbn [registerAll]; [auto|].
    destruct (IH (register r cl)) as [IHr IHn]. split.
    - intros H%IHr. apply rangeFlags_register_lookup in H. naive_solver.
    - intros H%IHn. apply nilDefaults_register in H. naive_solver. }
  repeat split_and.
  - revert cl. induction rs as [|r rs IH]; intros cl; cbn [registerAll].
    + split; [auto|]. intros [H|(r & Hr & _)]; [exact H|].
      apply elem_of_nil in Hr. contradiction.
    + rewrite IH, rangeFlags_register_lookup. split.
      * intros [[[H _]|(_ & Ht & Hb)]|(r' & Hin & Ht & Hb)].
        -- left. exact H.
        -- right. exists r. rewrite elem_of_cons. auto.
        -- right. exists r'. rewrite elem_of_cons. auto.
      * intros [H|(r' & [->|Hin]%elem_of_cons & Ht & Hb)].
        -- destruct (decide (isTriplet r = true ∧ baseName r = k)); naive_solver.
        -- left. right. auto.
        -- right. exists r'. auto.
  - revert cl. induction rs as [|r rs IH]; intros cl; cbn [registerAll].
    + split; [auto|]. intros [H|(r & Hr & _)]; [exact H|].
      apply elem_of_nil in Hr. contradiction.
    + rewrite IH, nilDefaults_register. split.
      * intros [[[H _]|[_ Hin]]|(r' & Hin & Hu)].
        -- left. exact H.
        -- right. exists r. rewrite elem_of_cons. auto.
        -- right. exists r'. rewrite elem_of_cons. auto.
      * intros [H|(r' & [->|Hin]%elem_of_cons & Hu)].
        -- destruct (decide (k ∈ unsetNames r)); naive_solver.
        -- left. right. auto.
        -- right. exists r'. auto.
  - intros H. apply (Hfalse rs noFlags) in H. unfold noFlags in H.
    cbn [rangeFlags] in H. rewrite lookup_empty in H. discriminate H.
  - intros H. apply (Hfalse rs noFlags) in H. unfold noFlags in H.
    cbn [nilDefaults] in H. rewrite lookup_empty in H. discriminate H.
Qed.

(** *** A flag's pipeline stays in its own slot *)

Lemma read_only_writes_only (k : string) (v : validator) : read_only v → writes_only k v.
Proof. intros Hro val fl k' _. rewrite (Hro val fl). reflexivity. Qed.

Lemma ratioValidator_writes_only (name : string) : writes_only name (ratioValidator name).
Proof.
  intros val fl k' Hne.
  destruct (ratioValidator_writes name val fl) as [->|(_ & _ & f & ->)]; [reflexivity|].
  apply index_insert_ne. auto.
Qed.

Lemma byteQuantityProcessor_writes_only (name : string) :
  writes_only name (byteQuantityProcessor name).
Proof.
  intros val fl k' Hne. unfold byteQuantityProcessor.
  destruct val as [[]|]; cbn [snd]; try reflexivity.
  destruct (ParseToByteQuantity s); cbn [snd]; [|reflexivity].
  apply index_insert_ne. auto.
Qed.

Lemma regexProcessor_writes_only (name : string) : writes_only name (regexProcessor name).
Proof.
  intros val fl k' Hne. unfold regexProcessor.
  destruct val as [[]|]; cbn [snd]; try reflexivity.
  destruct (regexp_Compile s); cbn [snd]; [|reflexivity].
  apply index_insert_ne. auto.
Qed.

Lemma pathProcessor_writes_only (name : string) : writes_only name (pathProcessor name).
Proof.
  intros val fl k' Hne. unfold pathProcessor.
  destruct val as [[]|]; cbn [snd]; try reflexivity.
  destruct (homedir_Expand s); cbn [snd]; [|reflexivity].
  apply index_insert_ne. auto.
Qed.

Lemma registered_processor_origin (r : Registration) (cl : CommandLineInterface)
    (k : string) (proc : processor) :
  processors (register r cl) !! k = Some (Some proc) →
  processors cl !! k = Some (Some proc) ∨
  (callerProcessor r = Some proc ∧ k = baseName r) ∨
  proc = byteQuantityProcessor k ∨ proc = regexProcessor k ∨ proc = pathProcessor k.
Proof.
  each_registration r; cbn [register callerProcessor baseName]; builders_eq; intros H;
    repeat match type of H with
           | <[_ := _]> _ !! _ = Some _ =>
               apply lookup_insert_Some in H as [[<- H]|[? H]]
           end;
    try (left; exact H);
    try discriminate H;
    try (injection H as <-);
    try (subst p);
    pick_disjunct.
Qed.

Lemma registered_validator_key (r : Registration) (cl : CommandLineInterface)
    (k : string) (v : validator) :
  validators (register r cl) !! k = Some (Some v) →
  validators cl !! k = Some (Some v) ∨
  (callerValidator r = Some v ∧ k = baseName r) ∨
  read_only v ∨ v = ratioValidator k.
Proof.
  each_registration r; cbn [register callerValidator baseName]; builders_eq; intros H;
    repeat match type of H with
           | <[_ := _]> _ !! _ = Some _ =>
               apply lookup_insert_Some in H as [[<- H]|[? H]]
           end;
    try (left; exact H);
    try discriminate H;
    try (injection H as <-);
    try (subst vf);
    first [ pick_disjunct
          | right; right; left;
            first [ apply rangeValidators_read_only | apply byteQuantityValidator_read_only
                  | apply regexValidator_read_only | apply stringOptionsValidator_read_only ] ].
Qed.

(** X4: in the tables any program of registrations builds from empty ones,
    the processor and the validator found under a flag's name write no slot
    but that flag's, as long as the functions a caller hands to the string
    builder do so. *)
Theorem pipeline_writes_own_slot (rs : list Registration) :
  (∀ r p, r ∈ rs → callerProcessor r = Some p → writes_only (baseName r) p) →
  (∀ r v, r ∈ rs → callerValidator r = Some v → writes_only (baseName r) v) →
  ∀ k,
    (∀ p, processors (registerAll rs noFlags) !! k = Some (Some p) → writes_only k p) ∧
    (∀ v, validators (registerAll rs noFlags) !! k = Some (Some v) → writes_only k v).
Proof.
  intros Hp Hv k.
  assert (Hgen : ∀ cl,
            (∀ p, processors cl !! k = Some (Some p) → writes_only k p) →
            (∀ v, validators cl !! k = Some (Some v) → writes_only k v) →
            (∀ p, processors (registerAll rs cl) !! k = Some (Some p) → writes_only k p) ∧
            (∀ v, validators (registerAll rs cl) !! k = Some (Some v) → writes_only k v)).
  { induction rs as [|r rs IH]; intros cl Hcp Hcv; cbn [registerAll]; [auto|].
    apply IH.
    - intros r' p Hin. apply Hp. apply elem_of_cons. auto.
    - intros r' v Hin. apply Hv. apply elem_of_cons. auto.
    - intros p Horigin. apply registered_processor_origin in Horigin.
      destruct Horigin as [H|[[Hc Hk]|[Hb|[Hr|Hpa]]]]; subst.
      + apply Hcp, H.
      + apply (Hp r p); [apply elem_of_cons; auto|exact Hc].
      + apply byteQuantityProcessor_writes_only.
      + apply regexProcessor_writes_only.
      + apply pathProcessor_writes_only.
    - intros v Horigin. apply registered_validator_key in Horigin.
      destruct Horigin as [H|[[Hc Hk]|[Hro|Hra]]]; subst.
      + apply Hcv, H.
      + apply (Hv r v); [apply elem_of_cons; auto|exact Hc].
      + apply read_only_writes_only, Hro.
      + apply ratioValidator_writes_only. }
  apply Hgen; unfold noFlags; cbn [processors validators]; intros ? H;
    rewrite lookup_empty in H; discriminate H.
Qed.

(** *** Processing, then validating *)

Lemma byteQuantity_message (name tail : string) :
  byteQuantityInvalidInputMsg name +:+ tail =
  "Invalid input for --" +:+ name +:+ ". A valid example is 16gb." +:+ tail.
Proof. unfold byteQuantityInvalidInputMsg. rewrite !append_assoc. reflexivity. Qed.

(** X5: run on the slot of its own flag, the byte-quantity processor, when
    it returns nil, leaves the slot nil or holding a byte quantity; the
    validator then accepts the slot, and a second run of the processor changes
    nothing.  A slot still holding the raw string, the processor not having
    run, is refused by the validator with the message naming the flag. *)
Theorem byteQuantity_process_then_validate (name : string) (fl : gmap string iface) :
  (fst (byteQuantityProcessor name (index fl name) fl) = Nil →
   let fl' := snd (byteQuantityProcessor name (index fl name) fl) in
   (index fl' name = None ∨ ∃ bq, index fl' name = Some (PByteQuantity bq)) ∧
   byteQuantityValidator name (index fl' name) fl' = (Nil, fl') ∧
   byteQuantityProcessor name (index fl' name) fl' = (Nil, fl')) ∧
  (∀ s, index fl name = Some (PString s) →
     byteQuantityValidator name (index fl name) fl =
       (Errorf ("Invalid input for --" +:+ name +:+
                ". A valid example is 16gb. Processing failed"), fl)).
Proof.
  split.
  - unfold byteQuantityProcessor at 1 2.
    destruct (index fl name) as [[]|] eqn:Hslot; cbn [fst snd];
      try discriminate; try (intros _; rewrite Hslot; eauto).
    destruct (ParseToByteQuantity s) as [bq|]; cbn [fst snd]; [|discriminate].
    intros _. rewrite index_insert_eq. eauto.
  - intros s Hs. rewrite Hs. unfold byteQuantityValidator.
    rewrite byteQuantity_message. reflexivity.
Qed.

(** X6: the same for the regex flag: after a run of the processor that
    returns nil the slot is nil or a compiled expression, the validator accepts
    it and a second run changes nothing; an unprocessed string is refused by
    the validator. *)
Theorem regex_process_then_validate (name : string) (fl : gmap string iface) :
  (fst (regexProcessor name (index fl name) fl) = Nil →
   let fl' := snd (regexProcessor name (index fl name) fl) in
   (index fl' name = None ∨ ∃ re, index fl' name = Some (PRegexp re)) ∧
   regexValidator name (index fl' name) fl' = (Nil, fl') ∧
   regexProcessor name (index fl' name) fl' = (Nil, fl')) ∧
  (∀ s, index fl name = Some (PString s) →
     regexValidator name (index fl name) fl =
       (Errorf ("Invalid regex input for --" +:+ name +:+ ". Processing failed"), fl)).
Proof.
  split.
  - unfold regexProcessor at 1 2.
    destruct (index fl name) as [[]|] eqn:Hslot; cbn [fst snd];
      try discriminate; try (intros _; rewrite Hslot; eauto).
    destruct (regexp_Compile s) as [re|]; cbn [fst snd]; [|discriminate].
    intros _. rewrite index_insert_eq. eauto.
  - intros s Hs. rewrite Hs. unfold regexValidator.
    rewrite regex_message. reflexivity.
Qed.


(** X8: the ratio validator cannot be run twice: once it has accepted a
    text and put the float in the slot, a second run on that slot panics on
    the assertion that the value is a string. *)
Theorem ratio_validator_once (name : string) (fl : gmap string iface) :
  index fl name ≠ None →
  fst (ratioValidator name (index fl name) fl) = Nil →
  let fl' := snd (ratioValidator name (index fl name) fl) in
  (∃ f, index fl' name = Some (PFloat64 f)) ∧
  ratioValidator name (index fl' name) fl' = (Panic, fl').
Proof.
  intros Hslot Hnil.
  destruct (ratioValidator_writes name (index fl name) fl) as [Hsame|(_ & _ & f & Hf)].
  - exfalso. revert Hnil. unfold ratioValidator.
    destruct (index fl name) as [[]|] eqn:Hv; cbn [fst]; try discriminate;
      [|contradiction].
    revert Hsame. unfold ratioValidator.
    destruct (negb (MatchString_ratio s)); cbn [fst snd]; [discriminate|].
    destruct (Split s colon) as [|v0 [|v1 rest]]; cbn [fst snd]; try discriminate.
    destruct (Atoi v0), (Atoi v1); cbn [fst snd]; try discriminate.
    intros Hsame _. apply (f_equal (fun m => index m name)) in Hsame.
    rewrite index_insert_eq, Hv in Hsame. discriminate Hsame.
  - cbn zeta. rewrite Hf, index_insert_eq. split; [eauto|reflexivity].
Qed.

(** *** Triplets through the pipeline *)

Lemma byteQuantityProcessor_string (name s : string) (bq : ByteQuantity)
    (fl : gmap string iface) :
  ParseToByteQuantity s = Some bq →
  byteQuantityProcessor name (Some (PString s)) fl =
    (Nil, <[name := Some (PByteQuantity bq)]> fl).
Proof. intros Hs. unfold byteQuantityProcessor. rewrite Hs. reflexivity. Qed.

(** X9: a byte-quantity triplet, end to end: when both bounds hold texts
    the parser accepts and their processors have run, in either order, the
    ordering validator fails exactly when the magnitude parsed from the lower
    text exceeds the one parsed from the upper. *)
Theorem byteQuantity_triplet_pipeline (name : string) (fl : gmap string iface)
    (smin smax : string) (a b : ByteQuantity) (val : iface) :
  index fl (name +:+ "-min") = Some (PString smin) →
  index fl (name +:+ "-max") = Some (PString smax) →
  ParseToByteQuantity smin = Some a →
  ParseToByteQuantity smax = Some b →
  let fl1 := snd (byteQuantityProcessor (name +:+ "-min") (index fl (name +:+ "-min")) fl) in
  let fl2 := snd (byteQuantityProcessor (name +:+ "-max") (index fl1 (name +:+ "-max")) fl1) in
  let fl1' := snd (byteQuantityProcessor (name +:+ "-max") (index fl (name +:+ "-max")) fl) in
  let fl2' := snd (byteQuantityProcessor (name +:+ "-min") (index fl1' (name +:+ "-min")) fl1') in
  byteQuantityRangeValidator name val fl2 =
    (if MiB a >? MiB b
     then Errorf (rangeErrorMsg (name +:+ "-min") (name +:+ "-max")) else Nil, fl2) ∧
  fl2' = fl2.
Proof.
  intros Hmin Hmax Ha Hb. pose proof (min_ne_max name) as Hne. cbn zeta.
  rewrite Hmin, Hmax.
  rewrite (byteQuantityProcessor_string _ smin a fl Ha),
    (byteQuantityProcessor_string _ smax b fl Hb). cbn [snd].
  rewrite (index_insert_ne fl _ _ _ Hne), Hmax.
  rewrite (index_insert_ne fl _ _ _ (not_eq_sym Hne)), Hmin.
  rewrite (byteQuantityProcessor_string _ smax b _ Hb),
    (byteQuantityProcessor_string _ smin a _ Ha). cbn [snd]. split.
  - unfold byteQuantityRangeValidator.
    rewrite index_insert_ne by (apply not_eq_sym; exact Hne).
    rewrite !index_insert_eq. destruct (MiB a >? MiB b); reflexivity.
  - apply insert_insert_ne. exact Hne.
Qed.

(** X10: a triplet that has just been registered.  The bounds of an int,
    int32 or float64 triplet both hold zero and the ordering validator returns
    nil; the bounds of a byte-quantity triplet hold the raw empty string, and
    its ordering validator panics until they are processed or set to nil. *)
Theorem fresh_triplet_validates (name : string) (shorthand : option string)
    (cl : CommandLineInterface) (val : iface) :
  (∀ d, fst (intRangeValidator name val
               (Flags (IntMinMaxRangeFlagOnFlagSet name shorthand d cl))) = Nil) ∧
  (∀ d, fst (int32RangeValidator name val
               (Flags (Int32MinMaxRangeFlagOnFlagSet name shorthand d cl))) = Nil) ∧
  (∀ d, fst (float64RangeValidator name val
               (Flags (Float64MinMaxRangeFlagOnFlagSet name shorthand d cl))) = Nil) ∧
  (∀ d, fst (byteQuantityRangeValidator name val
               (Flags (ByteQuantityMinMaxRangeFlagOnFlagSet name shorthand d cl))) = Panic) ∧
  (∀ d, fst (byteQuantityRangeValidator name val
               (<[name +:+ "-min" := None]>
                  (Flags (ByteQuantityMinMaxRangeFlagOnFlagSet name shorthand d cl)))) = Nil).
Proof.
  repeat split_and; intros d.
  - destruct (int_triplet name shorthand d cl) as (_ & _ & Hmin & Hmax & _).
    unfold intRangeValidator. rewrite Hmin, Hmax. reflexivity.
  - destruct (int32_triplet name shorthand d cl) as (_ & _ & Hmin & Hmax & _).
    unfold int32RangeValidator. rewrite Hmin, Hmax. reflexivity.
  - destruct (float64_triplet name shorthand d cl) as (_ & _ & Hmin & Hmax & _).
    unfold float64RangeValidator. rewrite Hmin, Hmax. reflexivity.
  - destruct (byteQuantity_triplet name shorthand d cl) as (_ & _ & Hmin & Hmax & _).
    unfold byteQuantityRangeValidator. rewrite Hmin, Hmax. reflexivity.
  - unfold byteQuantityRangeValidator. rewrite index_insert_eq. reflexivity.
Qed.

Lemma gt_irrefl (x : spec_float) : Float64.gt x x = false.
Proof.
  unfold Float64.gt.
  destruct x as [sgn|sgn| |sgn m e]; cbn [SFcompare]; try reflexivity;
    try (destruct sgn; reflexivity).
  destruct sgn; rewrite Z.compare_refl; fold (Pos.compare m m);
    rewrite Pos.compare_refl; reflexivity.
Qed.

Lemma gt_nan (x : spec_float) :
  Float64.gt S754_nan x = false ∧ Float64.gt x S754_nan = false.
Proof. unfold Float64.gt. destruct x; split; reflexivity. Qed.

(** X11: bounds at the edge of the order.  Equal bounds pass the ordering
    validator of every kind (for byte quantities: bounds of equal magnitude);
    and a float64 bound that is a NaN is never reported, whatever the other
    bound. *)
Theorem equal_bounds_pass (name : string) (val : iface) (fl : gmap string iface) :
  (∀ n, index fl (name +:+ "-min") = Some (PInt n) →
        index fl (name +:+ "-max") = Some (PInt n) →
        intRangeValidator name val fl = (Nil, fl)) ∧
  (∀ n, index fl (name +:+ "-min") = Some (PInt32 n) →
        index fl (name +:+ "-max") = Some (PInt32 n) →
        int32RangeValidator name val fl = (Nil, fl)) ∧
  (∀ f, index fl (name +:+ "-min") = Some (PFloat64 f) →
        index fl (name +:+ "-max") = Some (PFloat64 f) →
        float64RangeValidator name val fl = (Nil, fl)) ∧
  (∀ p q, index fl (name +:+ "-min") = Some (PByteQuantity p) →
          index fl (name +:+ "-max") = Some (PByteQuantity q) →
          MiB p = MiB q →
          byteQuantityRangeValidator name val fl = (Nil, fl)) ∧
  (∀ f, index fl (name +:+ "-min") = Some (PFloat64 S754_nan) →
        index fl (name +:+ "-max") = Some (PFloat64 f) →
        float64RangeValidator name val fl = (Nil, fl)) ∧
  (∀ f, index fl (name +:+ "-min") = Some (PFloat64 f) →
        index fl (name +:+ "-max") = Some (PFloat64 S754_nan) →
        float64RangeValidator name val fl = (Nil, fl)).
Proof.
  repeat split_and.
  - intros n Hmin Hmax. unfold intRangeValidator. rewrite Hmin, Hmax.
    destruct (Z.gtb_spec n n); [lia|reflexivity].
  - intros n Hmin Hmax. unfold int32RangeValidator. rewrite Hmin, Hmax.
    destruct (Z.gtb_spec n n); [lia|reflexivity].
  - intros f Hmin Hmax. unfold float64RangeValidator. rewrite Hmin, Hmax, gt_irrefl.
    reflexivity.
  - intros p q Hmin Hmax Heq. unfold byteQuantityRangeValidator. rewrite Hmin, Hmax, Heq.
    destruct (Z.gtb_spec (MiB q) (MiB q)); [lia|reflexivity].
  - intros f Hmin Hmax. unfold float64RangeValidator.
    rewrite Hmin, Hmax, (proj1 (gt_nan f)). reflexivity.
  - intros f Hmin Hmax. unfold float64RangeValidator.
    rewrite Hmin, Hmax, (proj2 (gt_nan f)). reflexivity.
Qed.

(** *** More on the ratio validator *)

Lemma binary_round_aux_sign (sx : bool) (mx ex : Z) (lx : location) :
  match binary_round_aux Float64.prec Float64.emax sx mx ex lx with
  | S754_zero sgn | S754_infinity sgn | S754_finite sgn _ _ => sgn = sx
  | S754_nan => True
  end.
Proof.
  unfold binary_round_aux.
  destruct (shr_fexp _ _ _ _ _) as [mrs' e'].
  destruct (shr_fexp _ _ _ _ _) as [mrs'' e''].
  destruct (shr_m mrs''); [reflexivity| |exact I].
  destruct (Z.leb _ _); reflexivity.
Qed.

Lemma div_nonNegative (x y : spec_float) :
  nonNegative x → nonNegative y → nonNegative (Float64.div x y).
Proof.
  unfold nonNegative, Float64.div.
  destruct x as [sx|sx| |sx mx ex], y as [sy|sy| |sy my ey]; cbn [SFdiv];
    intros Hx Hy; subst; try reflexivity; try exact I.
  destruct (SFdiv_core_binary _ _ _ _ _ _) as [[mz ez] lz].
  apply (binary_round_aux_sign (xorb false false) mz ez lz).
Qed.

Lemma ratioBytes_app (a b : string) :
  ratioBytes (a +:+ b) = ratioBytes a && ratioBytes b.
Proof.
  induction a as [|c a IH]; [reflexivity|].
  rewrite append_cons. cbn [ratioBytes]. rewrite IH, andb_assoc. reflexivity.
Qed.

Lemma ratioBytes_digits (a : string) : allDigits a = true → ratioBytes a = true.
Proof.
  induction a as [|c a IH]; cbn [allDigits ratioBytes]; [reflexivity|].
  intros [Hc Ha]%andb_prop. rewrite Hc, (IH Ha). reflexivity.
Qed.

(** X12: what the ratio validator stores for a text of the grammar whose two
    numbers fit an [int] depends on the values of the numbers only, so leading
    zeros do not matter; and it is never a negative number: its sign bit is
    clear, or it is the NaN of 0:0. *)
Theorem ratio_stored_value (name : string) (fl : gmap string iface) (a b : string) :
  number a → number b → decimal a ≤ maxInt → decimal b ≤ maxInt →
  (∃ f, ratioValidator name (Some (PString (a +:+ ":" +:+ b))) fl =
          (Nil, <[name := Some (PFloat64 f)]> fl) ∧ nonNegative f) ∧
  (∀ a' b', number a' → number b' → decimal a' = decimal a → decimal b' = decimal b →
     ratioValidator name (Some (PString (a' +:+ ":" +:+ b'))) fl =
     ratioValidator name (Some (PString (a +:+ ":" +:+ b))) fl).
Proof.
  intros Ha Hb Hamax Hbmax. split.
  - rewrite (ratioValidator_grammar name a b fl Ha Hb).
    destruct (Z.leb_spec (decimal a) maxInt) as [_|?]; [|lia].
    destruct (Z.leb_spec (decimal b) maxInt) as [_|?]; [|lia].
    cbn [andb]. eexists. split; [reflexivity|].
    apply div_nonNegative; apply of_int_sign, decimal_nonneg; assumption.
  - intros a' b' Ha' Hb' Heqa Heqb.
    rewrite (ratioValidator_grammar name a b fl Ha Hb),
      (ratioValidator_grammar name a' b' fl Ha' Hb'), Heqa, Heqb. reflexivity.
Qed.

(** X13: a text with a byte that is neither a digit nor the colon, such as
    a sign, a space or a decimal point, is refused by the regexp, although
    [Atoi] alone would take a sign; so is a number alone, a number followed by
    a colon and nothing, and any text that starts with the colon. *)
Theorem ratio_rejects_other_bytes (name : string) (fl : gmap string iface) (s : string) :
  (ratioBytes s = false →
   ratioValidator name (Some (PString s)) fl =
     (Errorf ("invalid input for --" +:+ name +:+ ". A valid example is 1:2"), fl)) ∧
  (∀ a, allDigits a = true →
        s = a ∨ s = a +:+ ":" →
   ratioValidator name (Some (PString s)) fl =
     (Errorf ("invalid input for --" +:+ name +:+ ". A valid example is 1:2"), fl)) ∧
  (∀ a, s = ":" +:+ a →
   ratioValidator name (Some (PString s)) fl =
     (Errorf ("invalid input for --" +:+ name +:+ ". A valid example is 1:2"), fl)).
Proof.
  assert (Hskip : ratioGrammar s → ∃ y, y ≠ "" ∧ skipDigits s = String colon y).
  { intros (x & y & [_ Hx] & [Hyne _] & ->). exists y.
    rewrite (skipDigits_app x _ Hx), colon_append. auto. }
  repeat split_and.
  - intros Hbytes. apply ratioValidator_no_match.
    intros (a & b & [_ Ha] & [_ Hb] & ->).
    rewrite !ratioBytes_app, (ratioBytes_digits a Ha), (ratioBytes_digits b Hb) in Hbytes.
    discriminate Hbytes.
  - intros a Ha Hs. apply ratioValidator_no_match. intros Hg.
    destruct (Hskip Hg) as (y & Hyne & Hy). destruct Hs as [->| ->].
    + rewrite (allDigits_skip a Ha) in Hy. discriminate Hy.
    + rewrite (skipDigits_app a _ Ha) in Hy. injection Hy as <-. contradiction.
  - intros a ->. apply ratioValidator_no_match.
    intros (x & y & [Hxne Hx] & _ & Hxy).
    rewrite colon_append in Hxy. destruct x as [|c x]; [contradiction|].
    rewrite append_cons in Hxy. injection Hxy as <- _.
    cbn [allDigits] in Hx. apply andb_prop in Hx as [Hc _]. discriminate Hc.
Qed.

(** *** The allow-list at its edges *)

Lemma EqualFold_empty (v : string) : EqualFold v "" = true ↔ v = "".
Proof. destruct v; cbn [EqualFold]; split; congruence. Qed.

(** X14: the string-options validator at the edges of its allow-list.  With
    an empty list every value that is not nil is refused, with nothing after
    the colon of the message.  Every ASCII option is accepted in any mix of
    upper and lower case, wherever it stands in the list.  The empty string,
    which is what an unset flag holds, is accepted only when the list holds
    it.  A value that is no string panics as soon as the list has an element. *)
Theorem stringOptions_edges (name : string) (fl : gmap string iface) :
  (∀ v, stringOptionsValidator name [] (Some v) fl =
          (Errorf ("error " +:+ name +:+ " must be one of: "), fl)) ∧
  (∀ validOpts v s, v ∈ validOpts → isASCII v = true → isASCII s = true →
     lowerBytes s = lowerBytes v →
     stringOptionsValidator name validOpts (Some (PString s)) fl = (Nil, fl)) ∧
  (∀ validOpts,
     fst (stringOptionsValidator name validOpts (Some (PString "")) fl) = Nil ↔
     "" ∈ validOpts) ∧
  (∀ validOpts v, validOpts ≠ [] → (∀ s, v ≠ PString s) →
     stringOptionsValidator name validOpts (Some v) fl = (Panic, fl)).
Proof.
  repeat split_and.
  - intros v. reflexivity.
  - intros validOpts v s Hin Hv Hs Hlow.
    assert (Hex : existsb (fun o => EqualFold o s) validOpts = true).
    { apply existsb_EqualFold. exists v. split; [exact Hin|].
      apply EqualFold_ascii; auto. }
    unfold stringOptionsValidator. rewrite optionsLoop_string, Hex. reflexivity.
  - intros validOpts. unfold stringOptionsValidator. rewrite optionsLoop_string.
    destruct (existsb (fun v => EqualFold v "") validOpts) eqn:Hex; cbn [fst].
    + split; [intros _|reflexivity].
      apply existsb_EqualFold in Hex as (v & Hin & Hv).
      apply EqualFold_empty in Hv. subst v. exact Hin.
    + split; [discriminate|]. intros Hin.
      assert (Hyes : existsb (fun v => EqualFold v "") validOpts = true).
      { apply existsb_EqualFold. exists "". split; [exact Hin|reflexivity]. }
      rewrite Hyes in Hex. discriminate Hex.
  - intros validOpts v Hne Hv. unfold stringOptionsValidator.
    destruct validOpts as [|o rest]; [contradiction|]. cbn [optionsLoop].
    destruct v; try reflexivity. destruct (Hv s). reflexivity.
Qed.

(** *** The default of a byte-quantity flag through its processor *)

(** X15: a byte-quantity flag registered with a default holds the default
    as the text [StringGiB] prints; the processor, run on that slot, stores
    what the parser reads back from the text, hence the default itself when
    the parser reads back what [StringGiB] prints, and fails when the parser
    refuses the text.  Registered without default the slot holds the empty
    text, and the processor fails on it whenever the parser refuses the empty
    text. *)
Theorem byteQuantity_default_through_processor (name : string) (shorthand : option string)
    (cl : CommandLineInterface) :
  (∀ d,
     let fl := Flags (ByteQuantityFlagOnFlagSet name shorthand (Some d) cl) in
     index fl name = Some (PString (StringGiB d)) ∧
     (∀ d', ParseToByteQuantity (StringGiB d) = Some d' →
        byteQuantityProcessor name (index fl name) fl =
          (Nil, <[name := Some (PByteQuantity d')]> fl)) ∧
     (ParseToByteQuantity (StringGiB d) = None →
        byteQuantityProcessor name (index fl name) fl =
          (Errorf ("Invalid input for --" +:+ name +:+
                   ". A valid example is 16gb. Can't parse byte quantity " +:+
                   StringGiB d), fl))) ∧
  (let fl := Flags (ByteQuantityFlagOnFlagSet name shorthand None cl) in
   index fl name = Some (PString "") ∧
   (ParseToByteQuantity "" = None →
      byteQuantityProcessor name (index fl name) fl =
        (Errorf ("Invalid input for --" +:+ name +:+
                 ". A valid example is 16gb. Can't parse byte quantity "), fl))).
Proof.
  split.
  - intros d. cbn zeta. unfold ByteQuantityFlagOnFlagSet.
    rewrite StringFlagOnFlagSet_eq. cbn [Flags default from_option id].
    repeat split_and.
    + apply index_insert_eq.
    + intros d' Hp. rewrite index_insert_eq.
      apply byteQuantityProcessor_string. exact Hp.
    + intros Hp. rewrite index_insert_eq. unfold byteQuantityProcessor. rewrite Hp.
      rewrite byteQuantity_message. reflexivity.
  - cbn zeta. unfold ByteQuantityFlagOnFlagSet.
    rewrite StringFlagOnFlagSet_eq. cbn [Flags default from_option id].
    split; [apply index_insert_eq|].
    intros Hp. rewrite index_insert_eq. unfold byteQuantityProcessor. rewrite Hp.
    rewrite byteQuantity_message. reflexivity.
Qed.

(** *** The base flag of a triplet *)

(** X16: what a triplet hangs on its three names.  A byte-quantity triplet
    puts the byte-quantity processor under the base name and both bounds; a
    numeric triplet registers no processor at all.  The validator left under
    the base name, of whatever kind, does not look at the value it is passed:
    the base flag itself is never checked, not even, for a byte quantity, for
    having been processed. *)
Theorem triplet_base_unchecked (name : string) (shorthand : option string)
    (cl : CommandLineInterface) :
  (∀ d k, k ∈ [name; name +:+ "-min"; name +:+ "-max"] →
     processors (ByteQuantityMinMaxRangeFlagOnFlagSet name shorthand d cl) !! k =
       Some (Some (byteQuantityProcessor k))) ∧
  (∀ d, processors (IntMinMaxRangeFlagOnFlagSet name shorthand d cl) = processors cl) ∧
  (∀ d, processors (Int32MinMaxRangeFlagOnFlagSet name shorthand d cl) = processors cl) ∧
  (∀ d, processors (Float64MinMaxRangeFlagOnFlagSet name shorthand d cl) = processors cl) ∧
  (∀ r v, isTriplet r = true →
     validators (register r cl) !! baseName r = Some (Some v) →
     ∀ val val' fl, v val fl = v val' fl).
Proof.
  pose proof (min_ne_base name). pose proof (max_ne_base name).
  pose proof (min_ne_max name).
  repeat split_and.
  - intros d k Hk. builders_eq.
    rewrite !elem_of_cons, elem_of_nil in Hk.
    destruct Hk as [->|[->|[->|[]]]]; lookup_chain; reflexivity.
  - intros d. builders_eq. reflexivity.
  - intros d. builders_eq. reflexivity.
  - intros d. builders_eq. reflexivity.
  - intros r v Ht. rename name into base. each_registration r; try discriminate Ht;
      cbn [baseName register]; builders_eq;
      rewrite lookup_insert_eq; intros Hv; injection Hv as <-; reflexivity.
Qed.

(** *** No pipeline without a flag *)

Lemma register_slot (r : Registration) (cl : CommandLineInterface) (k : string) :
  k ∈ names r → index (Flags (register r cl)) k ≠ None.
Proof.
  pose proof (min_ne_base (baseName r)). pose proof (max_ne_base (baseName r)).
  pose proof (min_ne_max (baseName r)).
  each_registration r; unfold names; cbn [isTriplet baseName] in *; intros Hk;
    rewrite ?elem_of_cons, elem_of_nil in Hk;
    cbn [register]; builders_eq; unfold index;
    repeat match type of Hk with
           | _ ∨ _ => destruct Hk as [->|Hk]
           | False => destruct Hk
           end;
    lookup_chain; discriminate.
Qed.

Lemma register_keys (r : Registration) (cl : CommandLineInterface) (k : string) :
  k ∉ names r ∨ index (Flags (register r cl)) k ≠ None.
Proof.
  destruct (decide (k ∈ names r)) as [Hin|Hout]; [right|left; exact Hout].
  apply register_slot. exact Hin.
Qed.

(** X17: in the tables a program of registrations builds from empty ones,
    every name that has a processor, a validator, an unset mark or a range
    mark also has a slot in [Flags], and the slot is not nil. *)
Theorem tables_within_flags (rs : list Registration) (k : string) :
  (processors (registerAll rs noFlags) !! k ≠ None ∨
   validators (registerAll rs noFlags) !! k ≠ None ∨
   nilDefaults (registerAll rs noFlags) !! k ≠ None ∨
   rangeFlags (registerAll rs noFlags) !! k ≠ None) →
  index (Flags (registerAll rs noFlags)) k ≠ None.
Proof.
  assert (Hgen : ∀ cl,
            (processors cl !! k ≠ None ∨ validators cl !! k ≠ None ∨
             nilDefaults cl !! k ≠ None ∨ rangeFlags cl !! k ≠ None →
             index (Flags cl) k ≠ None) →
            (processors (registerAll rs cl) !! k ≠ None ∨
             validators (registerAll rs cl) !! k ≠ None ∨
             nilDefaults (registerAll rs cl) !! k ≠ None ∨
             rangeFlags (registerAll rs cl) !! k ≠ None) →
            index (Flags (registerAll rs cl)) k ≠ None).
  { induction rs as [|r rs IH]; intros cl Hcl; cbn [registerAll]; [exact Hcl|].
    apply IH. intros Htab.
    destruct (register_keys r cl k) as [Hout|Hslot]; [|exact Hslot].
    destruct (register_frame r cl k Hout) as (HF & HN & HR & HV & HP).
    unfold index. rewrite HF. apply Hcl. rewrite <- HP, <- HV, <- HN, <- HR. exact Htab. }
  apply Hgen. unfold noFlags. cbn [processors validators nilDefaults rangeFlags].
  rewrite !lookup_empty. intros [H|[H|[H|H]]]; contradiction.
Qed.

End Flags.

(** ** Runs on concrete inputs *)

Lemma ordering_validators_witness :
  ∃ msg, fst (intRangeValidator "vcpus" None vcpus_4_2) = Errorf msg.
Proof.
  destruct (ordering_validators sampleParse sampleStringGiB "vcpus" None)
    as [[_ Hint] _].
  destruct (Hint None vcpus_4_2) as (_ & [_ Herr] & _).
  apply Herr. exists 4, 2. repeat split; vm_compute; reflexivity.
Defined.

Lemma byteQuantity_order_by_magnitude_witness :
  byteQuantityRangeValidator "memory" None memory_2048_1024 =
    (Errorf (rangeErrorMsg "memory-min" "memory-max"), memory_2048_1024).
Proof.
  destruct (byteQuantity_order_by_magnitude "memory" None memory_2048_1024)
    as [Hrun _].
  apply (Hrun {| Quantity := 2048 |} {| Quantity := 1024 |}); vm_compute; reflexivity.
Defined.

Lemma triplet_bounds_unset_witness :
  validators (IntMinMaxRangeFlagOnFlagSet "vcpus" None (Some 2) noFlags) !! "gpus" =
    validators noFlags !! "gpus".
Proof.
  destruct (triplet_bounds_unset sampleParse sampleStringGiB "vcpus" None) as [Hint _].
  destruct (Hint (Some 2) noFlags) as (_ & _ & _ & _ & _ & _ & _ & _ & Hother).
  apply Hother; vm_compute; discriminate.
Defined.

Lemma nil_default_recorded_witness :
  nilDefaults (IntFlagOnFlagSet "vcpus" None None noFlags) !! "vcpus" ≠
  nilDefaults (IntFlagOnFlagSet "vcpus" None (Some 0) noFlags) !! "vcpus".
Proof.
  destruct (nil_default_recorded sampleCompile sampleExpand sampleParse sampleStringGiB
              sampleFoldRunes "vcpus" None) as (_ & Hint & _).
  destruct (Hint noFlags) as (_ & _ & Hapart).
  apply (Hapart 0). vm_compute. discriminate.
Defined.


Lemma failure_leaves_registry_witness :
  snd (regexProcessor sampleCompile "allow-list" (Some (PString "(unclosed")) ∅) = ∅ ∧
  index (snd (regexProcessor sampleCompile "allow-list" (Some (PString "(unclosed")) ∅))
        "allow-list" = index ∅ "allow-list".
Proof.
  destruct (failure_leaves_registry sampleCompile sampleExpand sampleParse "allow-list"
              (Some (PString "(unclosed")) ∅) as (_ & _ & Hregex & _).
  apply Hregex. vm_compute. discriminate.
Defined.

Lemma regexProcessor_compiles_witness :
  regexProcessor sampleCompile "allow-list" (Some (PString "(unclosed")) ∅ =
    (Errorf "Invalid regex input for --allow-list. Unable to compile the regex", ∅) ∧
  regexProcessor sampleCompile "allow-list" (Some (PString "^a.*z$")) ∅ =
    (Nil, <["allow-list" := Some (PRegexp {| expr := "^a.*z$" |})]> ∅).
Proof.
  destruct (regexProcessor_compiles sampleCompile "allow-list" ∅) as (Hok & Hfail & _).
  split.
  - apply Hfail. vm_compute. reflexivity.
  - apply Hok. vm_compute. reflexivity.
Defined.

Lemma stringOptionsValidator_membership_witness :
  stringOptionsValidator sampleFoldRunes "output" ["a"; "b"; "c"] (Some (PString "B")) ∅ =
    (Nil, ∅).
Proof.
  destruct (stringOptionsValidator_membership sampleFoldRunes "output" ["a"; "b"; "c"] ∅)
    as (_ & Hin & _).
  apply Hin. exists "b". split.
  - apply list_elem_of_further, list_elem_of_here.
  - vm_compute. reflexivity.
Defined.

Lemma ratio_accepts_grammar_witness :
  ratioValidator "vcpus-to-memory-ratio" (Some (PString "1:2")) ∅ =
    (Nil, <["vcpus-to-memory-ratio" := Some (PFloat64 Float64.two)]> ∅).
Proof.
  destruct (ratio_accepts_grammar "vcpus-to-memory-ratio" ∅) as (Hacc & _).
  apply (Hacc "1" "2").
  - split; [discriminate|reflexivity].
  - split; [discriminate|reflexivity].
  - vm_compute. discriminate.
  - vm_compute. discriminate.
  - vm_compute. discriminate.
Defined.

Lemma ratio_zero_first_stores_infinity_witness :
  ratioValidator "vcpus-to-memory-ratio" (Some (PString "0:5")) ∅ =
    (Nil, <["vcpus-to-memory-ratio" := Some (PFloat64 (S754_infinity false))]> ∅).
Proof.
  destruct (ratio_zero_first_stores_infinity "vcpus-to-memory-ratio" ∅) as (Hzero & _).
  destruct (Hzero "0" "5") as [Hrun _].
  - split; [discriminate|reflexivity].
  - split; [discriminate|reflexivity].
  - reflexivity.
  - vm_compute. discriminate.
  - exact Hrun.
Defined.

(** ** Runs of the further properties *)

Lemma registration_touches_own_names_witness :
  validators (register sampleCompile sampleExpand sampleParse sampleStringGiB
                sampleFoldRunes (RRegex "allow-list" None None) noFlags) !! "vcpus" =
  validators noFlags !! "vcpus".
Proof.
  destruct (registration_touches_own_names sampleCompile sampleExpand sampleParse
              sampleStringGiB sampleFoldRunes (RRegex "allow-list" None None) noFlags)
    as [Hother _].
  destruct (Hother "vcpus") as (_ & _ & _ & Hv & _); [|exact Hv].
  unfold names. cbn [isTriplet baseName]. rewrite not_elem_of_cons. split.
  - discriminate.
  - apply not_elem_of_nil.
Defined.

Lemma registrations_commute_witness :
  register sampleCompile sampleExpand sampleParse sampleStringGiB sampleFoldRunes
    (RInt "vcpus" None None)
    (register sampleCompile sampleExpand sampleParse sampleStringGiB sampleFoldRunes
       (RRegex "allow-list" None None) noFlags) =
  register sampleCompile sampleExpand sampleParse sampleStringGiB sampleFoldRunes
    (RRegex "allow-list" None None)
    (register sampleCompile sampleExpand sampleParse sampleStringGiB sampleFoldRunes
       (RInt "vcpus" None None) noFlags).
Proof.
  apply registrations_commute.
  unfold names. cbn [isTriplet baseName]. intros k Hk.
  apply elem_of_cons in Hk as [->|Hk]; [|apply elem_of_nil in Hk; contradiction].
  rewrite not_elem_of_cons. split; [discriminate|apply not_elem_of_nil].
Defined.

Lemma side_tables_exact_witness :
  rangeFlags (registerAll sampleCompile sampleExpand sampleParse sampleStringGiB
                sampleFoldRunes [RIntRange "vcpus" None None] noFlags) !! "vcpus" =
    Some true.
Proof.
  destruct (side_tables_exact sampleCompile sampleExpand sampleParse sampleStringGiB
              sampleFoldRunes [RIntRange "vcpus" None None] noFlags "vcpus")
    as ([_ Hrange] & _).
  apply Hrange. right. exists (RIntRange "vcpus" None None).
  split; [apply list_elem_of_here|split; reflexivity].
Defined.

Lemma pipeline_writes_own_slot_witness :
  writes_only "allow-list" (regexProcessor sampleCompile "allow-list").
Proof.
  destruct (pipeline_writes_own_slot sampleCompile sampleExpand sampleParse
              sampleStringGiB sampleFoldRunes [RRegex "allow-list" None None])
    with (k := "allow-list") as [Hproc _].
  - intros r p Hr Hc. apply elem_of_cons in Hr as [->|Hr];
      [discriminate Hc|apply elem_of_nil in Hr; contradiction].
  - intros r v Hr Hc. apply elem_of_cons in Hr as [->|Hr];
      [discriminate Hc|apply elem_of_nil in Hr; contradiction].
  - apply Hproc. vm_compute. reflexivity.
Defined.

Lemma byteQuantity_process_then_validate_witness :
  byteQuantityValidator "memory"
    (index (snd (byteQuantityProcessor sampleParse "memory"
                   (index (<["memory" := Some (PString "2048")]> ∅) "memory")
                   (<["memory" := Some (PString "2048")]> ∅))) "memory")
    (snd (byteQuantityProcessor sampleParse "memory"
            (index (<["memory" := Some (PString "2048")]> ∅) "memory")
            (<["memory" := Some (PString "2048")]> ∅))) =
  (Nil, snd (byteQuantityProcessor sampleParse "memory"
               (index (<["memory" := Some (PString "2048")]> ∅) "memory")
               (<["memory" := Some (PString "2048")]> ∅))).
Proof.
  destruct (byteQuantity_process_then_validate sampleParse "memory"
              (<["memory" := Some (PString "2048")]> ∅)) as [Hrun _].
  destruct Hrun as (_ & Hvalid & _); [vm_compute; reflexivity|exact Hvalid].
Defined.

Lemma regex_process_then_validate_witness :
  regexValidator "allow-list"
    (index (snd (regexProcessor sampleCompile "allow-list"
                   (index (<["allow-list" := Some (PString "^a.*z$")]> ∅) "allow-list")
                   (<["allow-list" := Some (PString "^a.*z$")]> ∅))) "allow-list")
    (snd (regexProcessor sampleCompile "allow-list"
            (index (<["allow-list" := Some (PString "^a.*z$")]> ∅) "allow-list")
            (<["allow-list" := Some (PString "^a.*z$")]> ∅))) =
  (Nil, snd (regexProcessor sampleCompile "allow-list"
               (index (<["allow-list" := Some (PString "^a.*z$")]> ∅) "allow-list")
               (<["allow-list" := Some (PString "^a.*z$")]> ∅))).
Proof.
  destruct (regex_process_then_validate sampleCompile "allow-list"
              (<["allow-list" := Some (PString "^a.*z$")]> ∅)) as [Hrun _].
  destruct Hrun as (_ & Hvalid & _); [vm_compute; reflexivity|exact Hvalid].
Defined.


Lemma ratio_validator_once_witness :
  ratioValidator "r"
    (index (snd (ratioValidator "r" (index (<["r" := Some (PString "1:2")]> ∅) "r")
                   (<["r" := Some (PString "1:2")]> ∅))) "r")
    (snd (ratioValidator "r" (index (<["r" := Some (PString "1:2")]> ∅) "r")
            (<["r" := Some (PString "1:2")]> ∅))) =
  (Panic, snd (ratioValidator "r" (index (<["r" := Some (PString "1:2")]> ∅) "r")
                 (<["r" := Some (PString "1:2")]> ∅))).
Proof.
  destruct (ratio_validator_once "r" (<["r" := Some (PString "1:2")]> ∅)) as [_ Hpanic].
  - vm_compute. discriminate.
  - vm_compute. reflexivity.
  - exact Hpanic.
Defined.

Lemma byteQuantity_triplet_pipeline_witness :
  fst (byteQuantityRangeValidator "memory" None
         (snd (byteQuantityProcessor sampleParse "memory-max"
                 (index (snd (byteQuantityProcessor sampleParse "memory-min"
                                (index (<["memory-max" := Some (PString "1024")]>
                                          (<["memory-min" := Some (PString "2048")]> ∅))
                                       "memory-min")
                                (<["memory-max" := Some (PString "1024")]>
                                   (<["memory-min" := Some (PString "2048")]> ∅))))
                        "memory-max")
                 (snd (byteQuantityProcessor sampleParse "memory-min"
                         (index (<["memory-max" := Some (PString "1024")]>
                                   (<["memory-min" := Some (PString "2048")]> ∅))
                                "memory-min")
                         (<["memory-max" := Some (PString "1024")]>
                            (<["memory-min" := Some (PString "2048")]> ∅))))))) =
  Errorf (rangeErrorMsg "memory-min" "memory-max").
Proof.
  destruct (byteQuantity_triplet_pipeline sampleParse "memory"
              (<["memory-max" := Some (PString "1024")]>
                 (<["memory-min" := Some (PString "2048")]> ∅))
              "2048" "1024" {| Quantity := 2048 |} {| Quantity := 1024 |} None)
    as [Hrun _]; [vm_compute; reflexivity ..|].
  exact (f_equal fst Hrun).
Defined.

Lemma equal_bounds_pass_witness :
  intRangeValidator "vcpus" None
    (<["vcpus-max" := Some (PInt 4)]> (<["vcpus-min" := Some (PInt 4)]> ∅)) =
  (Nil, <["vcpus-max" := Some (PInt 4)]> (<["vcpus-min" := Some (PInt 4)]> ∅)).
Proof.
  destruct (equal_bounds_pass "vcpus" None
              (<["vcpus-max" := Some (PInt 4)]> (<["vcpus-min" := Some (PInt 4)]> ∅)))
    as (Hint & _).
  apply (Hint 4); vm_compute; reflexivity.
Defined.

Lemma ratio_stored_value_witness :
  ratioValidator "r" (Some (PString "01:002")) ∅ =
  ratioValidator "r" (Some (PString "1:2")) ∅.
Proof.
  destruct (ratio_stored_value "r" ∅ "1" "2") as [_ Hsame].
  - split; [discriminate|reflexivity].
  - split; [discriminate|reflexivity].
  - vm_compute. discriminate.
  - vm_compute. discriminate.
  - apply (Hsame "01" "002"); try (split; [discriminate|reflexivity]); reflexivity.
Defined.

Lemma ratio_rejects_other_bytes_witness :
  ratioValidator "r" (Some (PString "-1:2")) ∅ =
  (Errorf "invalid input for --r. A valid example is 1:2", ∅).
Proof.
  destruct (ratio_rejects_other_bytes "r" ∅ "-1:2") as [Hbytes _].
  apply Hbytes. vm_compute. reflexivity.
Defined.

Lemma stringOptions_edges_witness :
  stringOptionsValidator sampleFoldRunes "output" ["a"; "b"; "c"] (Some (PString "B")) ∅ =
  (Nil, ∅).
Proof.
  destruct (stringOptions_edges sampleFoldRunes "output" ∅) as (_ & Hown & _).
  apply (Hown ["a"; "b"; "c"] "b" "B").
  - apply list_elem_of_further, list_elem_of_here.
  - reflexivity.
  - reflexivity.
  - reflexivity.
Defined.

Lemma byteQuantity_default_through_processor_witness :
  byteQuantityProcessor sampleParse "memory"
    (index (Flags (ByteQuantityFlagOnFlagSet sampleParse sampleStringGiB "memory" None
                     (Some {| Quantity := 0 |}) noFlags)) "memory")
    (Flags (ByteQuantityFlagOnFlagSet sampleParse sampleStringGiB "memory" None
              (Some {| Quantity := 0 |}) noFlags)) =
  (Nil, <["memory" := Some (PByteQuantity {| Quantity := 0 |})]>
          (Flags (ByteQuantityFlagOnFlagSet sampleParse sampleStringGiB "memory" None
                    (Some {| Quantity := 0 |}) noFlags))).
Proof.
  destruct (byteQuantity_default_through_processor sampleParse sampleStringGiB
              "memory" None noFlags) as [Hgiven _].
  destruct (Hgiven {| Quantity := 0 |}) as (_ & Hback & _).
  apply Hback. vm_compute. reflexivity.
Defined.

Lemma triplet_base_unchecked_witness :
  processors (ByteQuantityMinMaxRangeFlagOnFlagSet sampleParse sampleStringGiB
                "memory" None None noFlags) !! "memory-min" =
    Some (Some (byteQuantityProcessor sampleParse "memory-min")).
Proof.
  destruct (triplet_base_unchecked sampleCompile sampleExpand sampleParse sampleStringGiB
              sampleFoldRunes "memory" None noFlags) as (Hproc & _).
  apply (Hproc None "memory-min").
  apply list_elem_of_further, list_elem_of_here.
Defined.

Lemma tables_within_flags_witness :
  index (Flags (registerAll sampleCompile sampleExpand sampleParse sampleStringGiB
                  sampleFoldRunes [RRegex "allow-list" None None] noFlags))
        "allow-list" ≠ None.
Proof.
  apply tables_within_flags. left.
  cbn [registerAll register]. unfold RegexFlagOnFlagSet.
  rewrite StringFlagOnFlagSet_eq. cbn [processors].
  rewrite lookup_insert_eq. discriminate.
Defined.

(** ** Where the code departs from the spec *)

(** C2 as the spec has it fails: the text 0:5 is not rejected; the validator
    returns nil and the slot holds plus infinity. *)
Lemma ratio_zero_first_not_rejected :
  (¬ ∃ msg, fst (ratioValidator "vcpus-to-memory-ratio" (Some (PString "0:5")) ∅) =
            Errorf msg) ∧
  fst (ratioValidator "vcpus-to-memory-ratio" (Some (PString "0:5")) ∅) = Nil ∧
  index (snd (ratioValidator "vcpus-to-memory-ratio" (Some (PString "0:5")) ∅))
        "vcpus-to-memory-ratio" = Some (PFloat64 (S754_infinity false)).
Proof.
  repeat split_and.
  - intros [msg Hmsg]. vm_compute in Hmsg. discriminate Hmsg.
  - vm_compute. reflexivity.
  - vm_compute. reflexivity.
Qed.

(** C3 as the spec has it fails: the text 1:9223372036854775808 is in the
    grammar and its first component is not zero, yet it is rejected, the second
    component being one more than [maxInt]. *)
Lemma ratio_grammar_text_rejected :
  MatchString_ratio "1:9223372036854775808" = true ∧
  ratioGrammar "1:9223372036854775808" ∧
  decimal "1" ≠ 0 ∧
  ratioValidator "vcpus-to-memory-ratio" (Some (PString "1:9223372036854775808")) ∅ =
    (Errorf ("invalid input for --vcpus-to-memory-ratio. " +:+
             "Ratio values must be integers. A valid example is 1:2"), ∅).
Proof.
  repeat split_and.
  - vm_compute. reflexivity.
  - apply MatchString_ratio_grammar. vm_compute. reflexivity.
  - vm_compute. discriminate.
  - vm_compute. reflexivity.
Qed.

